(** * Sockolate: a shallow embedding of the [Socket] connection manager

    The development follows [src/index.ts].  The class [Socket<In, Out>] is
    embedded as a record of its private fields; every method is a computation
    in a small state-and-exception monad over the pair of that record and of
    the JavaScript runtime it talks to (clock, timer table, transports, event
    emitter).  Timer and transport callbacks are not run by the methods that
    register them: they are separate turns of the event loop, see [Op] and
    [step]. *)

From Stdlib Require Import ZArith QArith Qminmax String Ascii List.
From stdpp Require Import base option list gmap strings fin_maps pretty.

Local Open Scope string_scope.
Local Open Scope list_scope.
Local Open Scope Z_scope.

(** ** Values exchanged with the runtime *)

(** A thrown or emitted JavaScript [Error]; only its message is observed. *)
Record Error := { message : string }.

(** Completion of a call: normal return, or an exception.  What a function
    of the application throws is taken to be an [Error]: the [catch] blocks
    of the class read [err.message], and a thrown [null] or [undefined],
    on which that read throws in turn, is outside the model. *)
Inductive Outcome (A : Type) : Type :=
| Return (a : A)
| Throw (e : Error).
Arguments Return {A} a.
Arguments Throw {A} e.

(** [reason?: string | Error], the argument of [abort]. *)
Inductive Reason :=
| NoReason
| Message (s : string)
| Failure (e : Error).

(** compresso's [isError]. *)
Definition isError (reason : Reason) : bool :=
  match reason with Failure _ => true | _ => false end.

(** [new Error(reason)] for a reason that is a string or absent. *)
Definition newError (reason : Reason) : Error :=
  match reason with
  | NoReason => {| message := "" |}
  | Message s => {| message := s |}
  | Failure e => {| message := message e |}
  end.

Inductive BinaryType := blob | arraybuffer.

(** DOM events handed to the central callbacks.  [In] is [string], the
    default of the class. *)
Definition Event := unit.
Record MessageEvent := { data : string }.
Record CloseEvent := { code : Z; reason : string; wasClean : bool }.
Record ErrorEvent := { error : Error }.

(** What a parser hands to [WebSocket.send]. *)
Definition OutData := string.

(** [types.ts]: the lifecycle events of the emitter and their payloads. *)
Module SocketEvent.
Inductive t :=
| preConnect | open | data | send | close | error | abort | reconnect | ping | pong.

Global Instance eq_dec : EqDecision t.
Proof. solve_decision. Defined.
End SocketEvent.

Inductive SocketEventData :=
| undefined
| ErrorData (e : Error)
| CloseData (e : CloseEvent)
| MessageData (e : MessageEvent).

(** A central callback supplied by the user.  Handlers are assumed not to
    call back into the socket; all that is observed of one is whether it
    returns or throws. *)
Definition Callback (E : Type) : Type := E → Outcome unit.

(** compresso's [noop]. *)
Definition noop {E : Type} : Callback E := λ _, Return tt.

(** [UrlProvider]: a fixed address or a function of the retry count and the
    previous address, which may throw. *)
Inductive UrlProvider :=
| StaticUrl (u : string)
| DynamicUrl (f : Z → option string → Outcome string).

(** The double quote character, for the wire literals. *)
Definition dq : string := String (ascii_of_nat 34) EmptyString.

Definition PingContent : string :=
  "{" +:+ dq +:+ "type" +:+ dq +:+ ":" +:+ dq +:+ "ping" +:+ dq +:+ "}".
Definition PongContent : string :=
  "{" +:+ dq +:+ "type" +:+ dq +:+ ":" +:+ dq +:+ "pong" +:+ dq +:+ "}".

(** ** Configuration ([interfaces.ts])

    Counts are integers; durations (in ms) and the delay factor are
    rationals. *)

Module BufferConfig.
Record t := { max : Z; min : Z }.
End BufferConfig.

Module PingConfig.
Record t := { heartbeat : Q; strict : bool; timeout : Q }.
End PingConfig.

Module RetryConfig.
Record t := {
  amount : Z;
  delayFactor : Q;
  maxDelay : Q;
  minUpTime : Q;
  onAbort : bool;
  startDelay : Q
}.
End RetryConfig.

Module SocketConfig.
(** [buffer: false | BufferConfig] is an option: [None] is [false]. *)
Record t := {
  binary : BinaryType;
  buffer : option BufferConfig.t;
  immediate : bool;
  ping : PingConfig.t;
  protocol : option (list string);
  retry : RetryConfig.t;
  timeout : Q
}.
End SocketConfig.

Definition DefaultOptions : SocketConfig.t :=
  {| SocketConfig.binary := blob;
     SocketConfig.buffer := Some {| BufferConfig.max := 32; BufferConfig.min := 0 |};
     SocketConfig.immediate := false;
     SocketConfig.ping :=
       {| PingConfig.heartbeat := 5000; PingConfig.strict := true; PingConfig.timeout := 5000 |};
     SocketConfig.protocol := None;
     SocketConfig.retry :=
       {| RetryConfig.amount := 0;
          RetryConfig.delayFactor := 3 # 2;
          RetryConfig.maxDelay := 30000;
          RetryConfig.minUpTime := 500;
          RetryConfig.onAbort := false;
          RetryConfig.startDelay := 1000 |};
     SocketConfig.timeout := 30000 |}.

(** compresso's [isEmptyObj] on the merged retry options: the record always
    carries its six keys. *)
Definition isEmptyObj (_ : RetryConfig.t) : bool := false.

(** ** Timers

    [setTimeout] and [setInterval] return a handle; the runtime keeps the
    table of live timers.  The callback of a timer is one of the five
    closures the class registers, all of which capture only [this]. *)

Definition Timeout := positive.

Inductive TimerCallback :=
| KeepAliveExpired      (* startKATimer *)
| PingTimedOut          (* ping *)
| BeatPingTimedOut      (* startBeat, inside sendPing *)
| BeatTick              (* startBeat: sendPing on the interval *)
| RetryFired.           (* reconnect *)

Inductive TimerKind := Once | Repeating.

Record Timer := { kind : TimerKind; callback : TimerCallback; delay : Q }.

(** ** The transport

    A [WebSocket] object lives in the runtime heap and is named by a
    reference; the class, the abort listener and the event loop may all hold
    the same one. *)

Definition SocketRef := nat.
Definition ArrayRef := nat.

(** The closure built by [onData]: it captures the user's callback and the
    array that was [this.#inBuffer] when [onData] ran. *)
Record MsgClosure := { msg_callback : Callback MessageEvent; msg_inBuffer : ArrayRef }.

Module WebSocket.
(** The constants [WebSocket.CONNECTING] ... [WebSocket.CLOSED]. *)
Inductive ReadyState := CONNECTING | OPEN | CLOSING | CLOSED.

Definition code (r : ReadyState) : Z :=
  match r with CONNECTING => 0 | OPEN => 1 | CLOSING => 2 | CLOSED => 3 end.

Global Instance ReadyState_eq_dec : EqDecision ReadyState.
Proof. solve_decision. Defined.

Record t := {
  readyState : ReadyState;
  url : string;
  protocol : string;
  extensions : string;
  binaryType : BinaryType;
  onopen : Callback Event;
  onclose : Callback CloseEvent;
  onerror : Callback ErrorEvent;
  onmessage : MsgClosure;
  sent : list OutData
}.

Definition set_readyState (v : ReadyState) (w : t) : t :=
  Build_t v (url w) (protocol w) (extensions w) (binaryType w) (onopen w) (onclose w)
    (onerror w) (onmessage w) (sent w).
Definition set_negotiated (p e : string) (w : t) : t :=
  Build_t (readyState w) (url w) p e (binaryType w) (onopen w) (onclose w)
    (onerror w) (onmessage w) (sent w).
Definition set_binaryType (v : BinaryType) (w : t) : t :=
  Build_t (readyState w) (url w) (protocol w) (extensions w) v (onopen w) (onclose w)
    (onerror w) (onmessage w) (sent w).
Definition set_handlers (o : Callback Event) (c : Callback CloseEvent)
    (e : Callback ErrorEvent) (m : MsgClosure) (w : t) : t :=
  Build_t (readyState w) (url w) (protocol w) (extensions w) (binaryType w) o c e m (sent w).
Definition set_sent (v : list OutData) (w : t) : t :=
  Build_t (readyState w) (url w) (protocol w) (extensions w) (binaryType w) (onopen w)
    (onclose w) (onerror w) (onmessage w) v.
End WebSocket.

(** [AbortController]: the signal's [aborted] flag and its [abort]
    listeners.  A listener is the closure [() => ws.close()] of [connect],
    identified by the transport it closes. *)
Definition AbortListener := SocketRef.
Record AbortController := { aborted : bool; listeners : list AbortListener }.

(** ** The monad of methods: state and exceptions *)

Definition Exec (S A : Type) : Type := S → Outcome A * S.

Definition ret {S A} (a : A) : Exec S A := λ st, (Return a, st).

Definition bind {S A B} (m : Exec S A) (k : A → Exec S B) : Exec S B :=
  λ st, match m st with
        | (Return a, st') => k a st'
        | (Throw e, st') => (Throw e, st')
        end.

Definition throw {S A} (e : Error) : Exec S A := λ st, (Throw e, st).

(** [try { m } catch (err) { h err }] *)
Definition try_catch {S A} (m : Exec S A) (h : Error → Exec S A) : Exec S A :=
  λ st, match m st with
        | (Return a, st') => (Return a, st')
        | (Throw e, st') => h e st'
        end.

Definition when {S} (b : bool) (m : Exec S unit) : Exec S unit := if b then m else ret tt.

(** The completion of a user callback or parser, as a computation. *)
Definition call {S A} (o : Outcome A) : Exec S A :=
  match o with Return a => ret a | Throw e => throw e end.

(** [for (const x of xs) body x] *)
Fixpoint for_of {S A} (xs : list A) (body : A → Exec S unit) : Exec S unit :=
  match xs with
  | [] => ret tt
  | x :: xs' => bind (body x) (λ _, for_of xs' body)
  end.

Declare Scope exec_scope.
Delimit Scope exec_scope with exec.
Notation "x ← y ; z" := (bind y (λ x, z))
  (at level 20, y at level 100, z at level 200, only parsing) : exec_scope.
Notation "y ;; z" := (bind y (λ _, z))
  (at level 100, z at level 200, only parsing, right associativity) : exec_scope.
Local Open Scope exec_scope.

(** ** The class and its runtime *)

(** What the class takes from outside: its type parameter [Out] with the
    truthiness of its values (tested by [send]), compresso's [stringify]
    (the default parser), the addresses the [WebSocket] constructor
    rejects with an exception, and the product of two numbers.  Numbers are
    IEEE 754 doubles; a finite double is a rational, but the product of two
    of them is rounded, so [times] is the runtime's and nothing is assumed
    of it.  Sums and differences are only ever taken of counts and
    millisecond clock readings, which are integers and exact. *)
Class Platform := {
  Out : Type;
  truthy : Out → bool;
  stringify : Out → Outcome OutData;
  rejects : string → option Error;
  times : Q → Q → Q
}.

Section Sockolate.

Context `{Platform}.

Definition Parser : Type := Out → Outcome OutData.

(** The private fields of [Socket], under their own names.  [#inBuffer] is a
    reference because the closure of [onData] keeps the array it saw;
    [#outBuffer] is only ever reached through the field.  The emitter is part
    of the runtime below. *)
Record Socket := MkSocket {
  abortListener : option AbortListener;
  binary : BinaryType;
  closeCall : bool;
  closeCallback : Callback CloseEvent;
  connected : option bool;
  controller : option AbortController;
  dataCallback : option (Callback MessageEvent);
  disconnectCall : bool;
  errCallback : Callback ErrorEvent;
  heartBeatRunning : bool;
  inBuffer : ArrayRef;
  msgCallback : MsgClosure;
  openCallback : Callback Event;
  opts : SocketConfig.t;
  outBuffer : list Out;
  parser : Parser;
  paused : bool;
  pingStart : bool;
  prevTimeStamp : Z;
  prevUrl : option string;
  protocols : option (list string);
  retries : Z;
  retryCall : bool;
  timers : gmap string (option Timeout);
  upTime : Z;
  urlProvider : UrlProvider;
  ws : option SocketRef
}.

(** Field updates. *)
Definition set_abortListener (v : option AbortListener) (s : Socket) : Socket :=
  MkSocket v (binary s) (closeCall s) (closeCallback s) (connected s) (controller s)
    (dataCallback s) (disconnectCall s) (errCallback s) (heartBeatRunning s) (inBuffer s)
    (msgCallback s) (openCallback s) (opts s) (outBuffer s) (parser s) (paused s) (pingStart s)
    (prevTimeStamp s) (prevUrl s) (protocols s) (retries s) (retryCall s) (timers s) (upTime s)
    (urlProvider s) (ws s).
Definition set_binary (v : BinaryType) (s : Socket) : Socket :=
  MkSocket (abortListener s) v (closeCall s) (closeCallback s) (connected s) (controller s)
    (dataCallback s) (disconnectCall s) (errCallback s) (heartBeatRunning s) (inBuffer s)
    (msgCallback s) (openCallback s) (opts s) (outBuffer s) (parser s) (paused s) (pingStart s)
    (prevTimeStamp s) (prevUrl s) (protocols s) (retries s) (retryCall s) (timers s) (upTime s)
    (urlProvider s) (ws s).
Definition set_closeCall (v : bool) (s : Socket) : Socket :=
  MkSocket (abortListener s) (binary s) v (closeCallback s) (connected s) (controller s)
    (dataCallback s) (disconnectCall s) (errCallback s) (heartBeatRunning s) (inBuffer s)
    (msgCallback s) (openCallback s) (opts s) (outBuffer s) (parser s) (paused s) (pingStart s)
    (prevTimeStamp s) (prevUrl s) (protocols s) (retries s) (retryCall s) (timers s) (upTime s)
    (urlProvider s) (ws s).
Definition set_closeCallback (v : Callback CloseEvent) (s : Socket) : Socket :=
  MkSocket (abortListener s) (binary s) (closeCall s) v (connected s) (controller s)
    (dataCallback s) (disconnectCall s) (errCallback s) (heartBeatRunning s) (inBuffer s)
    (msgCallback s) (openCallback s) (opts s) (outBuffer s) (parser s) (paused s) (pingStart s)
    (prevTimeStamp s) (prevUrl s) (protocols s) (retries s) (retryCall s) (timers s) (upTime s)
    (urlProvider s) (ws s).
Definition set_connected (v : option bool) (s : Socket) : Socket :=
  MkSocket (abortListener s) (binary s) (closeCall s) (closeCallback s) v (controller s)
    (dataCallback s) (disconnectCall s) (errCallback s) (heartBeatRunning s) (inBuffer s)
    (msgCallback s) (openCallback s) (opts s) (outBuffer s) (parser s) (paused s) (pingStart s)
    (prevTimeStamp s) (prevUrl s) (protocols s) (retries s) (retryCall s) (timers s) (upTime s)
    (urlProvider s) (ws s).
Definition set_controller (v : option AbortController) (s : Socket) : Socket :=
  MkSocket (abortListener s) (binary s) (closeCall s) (closeCallback s) (connected s) v
    (dataCallback s) (disconnectCall s) (errCallback s) (heartBeatRunning s) (inBuffer s)
    (msgCallback s) (openCallback s) (opts s) (outBuffer s) (parser s) (paused s) (pingStart s)
    (prevTimeStamp s) (prevUrl s) (protocols s) (retries s) (retryCall s) (timers s) (upTime s)
    (urlProvider s) (ws s).
Definition set_dataCallback (v : option (Callback MessageEvent)) (s : Socket) : Socket :=
  MkSocket (abortListener s) (binary s) (closeCall s) (closeCallback s) (connected s)
    (controller s) v (disconnectCall s) (errCallback s) (heartBeatRunning s) (inBuffer s)
    (msgCallback s) (openCallback s) (opts s) (outBuffer s) (parser s) (paused s) (pingStart s)
    (prevTimeStamp s) (prevUrl s) (protocols s) (retries s) (retryCall s) (timers s) (upTime s)
    (urlProvider s) (ws s).
Definition set_disconnectCall (v : bool) (s : Socket) : Socket :=
  MkSocket (abortListener s) (binary s) (closeCall s) (closeCallback s) (connected s)
    (controller s) (dataCallback s) v (errCallback s) (heartBeatRunning s) (inBuffer s)
    (msgCallback s) (openCallback s) (opts s) (outBuffer s) (parser s) (paused s) (pingStart s)
    (prevTimeStamp s) (prevUrl s) (protocols s) (retries s) (retryCall s) (timers s) (upTime s)
    (urlProvider s) (ws s).
Definition set_errCallback (v : Callback ErrorEvent) (s : Socket) : Socket :=
  MkSocket (abortListener s) (binary s) (closeCall s) (closeCallback s) (connected s)
    (controller s) (dataCallback s) (disconnectCall s) v (heartBeatRunning s) (inBuffer s)
    (msgCallback s) (openCallback s) (opts s) (outBuffer s) (parser s) (paused s) (pingStart s)
    (prevTimeStamp s) (prevUrl s) (protocols s) (retries s) (retryCall s) (timers s) (upTime s)
    (urlProvider s) (ws s).
Definition set_heartBeatRunning (v : bool) (s : Socket) : Socket :=
  MkSocket (abortListener s) (binary s) (closeCall s) (closeCallback s) (connected s)
    (controller s) (dataCallback s) (disconnectCall s) (errCallback s) v (inBuffer s)
    (msgCallback s) (openCallback s) (opts s) (outBuffer s) (parser s) (paused s) (pingStart s)
    (prevTimeStamp s) (prevUrl s) (protocols s) (retries s) (retryCall s) (timers s) (upTime s)
    (urlProvider s) (ws s).
Definition set_inBuffer (v : ArrayRef) (s : Socket) : Socket :=
  MkSocket (abortListener s) (binary s) (closeCall s) (closeCallback s) (connected s)
    (controller s) (dataCallback s) (disconnectCall s) (errCallback s) (heartBeatRunning s) v
    (msgCallback s) (openCallback s) (opts s) (outBuffer s) (parser s) (paused s) (pingStart s)
    (prevTimeStamp s) (prevUrl s) (protocols s) (retries s) (retryCall s) (timers s) (upTime s)
    (urlProvider s) (ws s).
Definition set_msgCallback (v : MsgClosure) (s : Socket) : Socket :=
  MkSocket (abortListener s) (binary s) (closeCall s) (closeCallback s) (connected s)
    (controller s) (dataCallback s) (disconnectCall s) (errCallback s) (heartBeatRunning s)
    (inBuffer s) v (openCallback s) (opts s) (outBuffer s) (parser s) (paused s) (pingStart s)
    (prevTimeStamp s) (prevUrl s) (protocols s) (retries s) (retryCall s) (timers s) (upTime s)
    (urlProvider s) (ws s).
Definition set_openCallback (v : Callback Event) (s : Socket) : Socket :=
  MkSocket (abortListener s) (binary s) (closeCall s) (closeCallback s) (connected s)
    (controller s) (dataCallback s) (disconnectCall s) (errCallback s) (heartBeatRunning s)
    (inBuffer s) (msgCallback s) v (opts s) (outBuffer s) (parser s) (paused s) (pingStart s)
    (prevTimeStamp s) (prevUrl s) (protocols s) (retries s) (retryCall s) (timers s) (upTime s)
    (urlProvider s) (ws s).
Definition set_outBuffer (v : list Out) (s : Socket) : Socket :=
  MkSocket (abortListener s) (binary s) (closeCall s) (closeCallback s) (connected s)
    (controller s) (dataCallback s) (disconnectCall s) (errCallback s) (heartBeatRunning s)
    (inBuffer s) (msgCallback s) (openCallback s) (opts s) v (parser s) (paused s) (pingStart s)
    (prevTimeStamp s) (prevUrl s) (protocols s) (retries s) (retryCall s) (timers s) (upTime s)
    (urlProvider s) (ws s).
Definition set_parser (v : Parser) (s : Socket) : Socket :=
  MkSocket (abortListener s) (binary s) (closeCall s) (closeCallback s) (connected s)
    (controller s) (dataCallback s) (disconnectCall s) (errCallback s) (heartBeatRunning s)
    (inBuffer s) (msgCallback s) (openCallback s) (opts s) (outBuffer s) v (paused s) (pingStart
    s) (prevTimeStamp s) (prevUrl s) (protocols s) (retries s) (retryCall s) (timers s) (upTime
    s) (urlProvider s) (ws s).
Definition set_paused (v : bool) (s : Socket) : Socket :=
  MkSocket (abortListener s) (binary s) (closeCall s) (closeCallback s) (connected s)
    (controller s) (dataCallback s) (disconnectCall s) (errCallback s) (heartBeatRunning s)
    (inBuffer s) (msgCallback s) (openCallback s) (opts s) (outBuffer s) (parser s) v (pingStart
    s) (prevTimeStamp s) (prevUrl s) (protocols s) (retries s) (retryCall s) (timers s) (upTime
    s) (urlProvider s) (ws s).
Definition set_pingStart (v : bool) (s : Socket) : Socket :=
  MkSocket (abortListener s) (binary s) (closeCall s) (closeCallback s) (connected s)
    (controller s) (dataCallback s) (disconnectCall s) (errCallback s) (heartBeatRunning s)
    (inBuffer s) (msgCallback s) (openCallback s) (opts s) (outBuffer s) (parser s) (paused s) v
    (prevTimeStamp s) (prevUrl s) (protocols s) (retries s) (retryCall s) (timers s) (upTime s)
    (urlProvider s) (ws s).
Definition set_prevTimeStamp (v : Z) (s : Socket) : Socket :=
  MkSocket (abortListener s) (binary s) (closeCall s) (closeCallback s) (connected s)
    (controller s) (dataCallback s) (disconnectCall s) (errCallback s) (heartBeatRunning s)
    (inBuffer s) (msgCallback s) (openCallback s) (opts s) (outBuffer s) (parser s) (paused s)
    (pingStart s) v (prevUrl s) (protocols s) (retries s) (retryCall s) (timers s) (upTime s)
    (urlProvider s) (ws s).
Definition set_prevUrl (v : option string) (s : Socket) : Socket :=
  MkSocket (abortListener s) (binary s) (closeCall s) (closeCallback s) (connected s)
    (controller s) (dataCallback s) (disconnectCall s) (errCallback s) (heartBeatRunning s)
    (inBuffer s) (msgCallback s) (openCallback s) (opts s) (outBuffer s) (parser s) (paused s)
    (pingStart s) (prevTimeStamp s) v (protocols s) (retries s) (retryCall s) (timers s) (upTime
    s) (urlProvider s) (ws s).
Definition set_retries (v : Z) (s : Socket) : Socket :=
  MkSocket (abortListener s) (binary s) (closeCall s) (closeCallback s) (connected s)
    (controller s) (dataCallback s) (disconnectCall s) (errCallback s) (heartBeatRunning s)
    (inBuffer s) (msgCallback s) (openCallback s) (opts s) (outBuffer s) (parser s) (paused s)
    (pingStart s) (prevTimeStamp s) (prevUrl s) (protocols s) v (retryCall s) (timers s) (upTime
    s) (urlProvider s) (ws s).
Definition set_retryCall (v : bool) (s : Socket) : Socket :=
  MkSocket (abortListener s) (binary s) (closeCall s) (closeCallback s) (connected s)
    (controller s) (dataCallback s) (disconnectCall s) (errCallback s) (heartBeatRunning s)
    (inBuffer s) (msgCallback s) (openCallback s) (opts s) (outBuffer s) (parser s) (paused s)
    (pingStart s) (prevTimeStamp s) (prevUrl s) (protocols s) (retries s) v (timers s) (upTime
    s) (urlProvider s) (ws s).
Definition set_timers (v : gmap string (option Timeout)) (s : Socket) : Socket :=
  MkSocket (abortListener s) (binary s) (closeCall s) (closeCallback s) (connected s)
    (controller s) (dataCallback s) (disconnectCall s) (errCallback s) (heartBeatRunning s)
    (inBuffer s) (msgCallback s) (openCallback s) (opts s) (outBuffer s) (parser s) (paused s)
    (pingStart s) (prevTimeStamp s) (prevUrl s) (protocols s) (retries s) (retryCall s) v
    (upTime s) (urlProvider s) (ws s).
Definition set_upTime (v : Z) (s : Socket) : Socket :=
  MkSocket (abortListener s) (binary s) (closeCall s) (closeCallback s) (connected s)
    (controller s) (dataCallback s) (disconnectCall s) (errCallback s) (heartBeatRunning s)
    (inBuffer s) (msgCallback s) (openCallback s) (opts s) (outBuffer s) (parser s) (paused s)
    (pingStart s) (prevTimeStamp s) (prevUrl s) (protocols s) (retries s) (retryCall s) (timers
    s) v (urlProvider s) (ws s).
Definition set_ws (v : option SocketRef) (s : Socket) : Socket :=
  MkSocket (abortListener s) (binary s) (closeCall s) (closeCallback s) (connected s)
    (controller s) (dataCallback s) (disconnectCall s) (errCallback s) (heartBeatRunning s)
    (inBuffer s) (msgCallback s) (openCallback s) (opts s) (outBuffer s) (parser s) (paused s)
    (pingStart s) (prevTimeStamp s) (prevUrl s) (protocols s) (retries s) (retryCall s) (timers
    s) (upTime s) (urlProvider s) v.

(** The runtime: [Date.now()], the table of live timers, every timer handle
    handed out so far, the heap of transports, the heap of inbound arrays,
    and the trace of what the emitter has fired. *)
Record World := MkWorld {
  now : Z;
  scheduled : gmap Timeout Timer;
  issued : gset Timeout;
  sockets : gmap SocketRef WebSocket.t;
  arrays : gmap ArrayRef (list MessageEvent);
  emitted : list (SocketEvent.t * SocketEventData)
}.

Definition set_now (v : Z) (w : World) : World :=
  MkWorld v (scheduled w) (issued w) (sockets w) (arrays w) (emitted w).
Definition set_scheduled (v : gmap Timeout Timer) (w : World) : World :=
  MkWorld (now w) v (issued w) (sockets w) (arrays w) (emitted w).
Definition set_issued (v : gset Timeout) (w : World) : World :=
  MkWorld (now w) (scheduled w) v (sockets w) (arrays w) (emitted w).
Definition set_sockets (v : gmap SocketRef WebSocket.t) (w : World) : World :=
  MkWorld (now w) (scheduled w) (issued w) v (arrays w) (emitted w).
Definition set_arrays (v : gmap ArrayRef (list MessageEvent)) (w : World) : World :=
  MkWorld (now w) (scheduled w) (issued w) (sockets w) v (emitted w).
Definition set_emitted (v : list (SocketEvent.t * SocketEventData)) (w : World) : World :=
  MkWorld (now w) (scheduled w) (issued w) (sockets w) (arrays w) v.

Record State := MkState { self : Socket; world : World }.

Definition M : Type → Type := Exec State.

(** Read a private field, update the object, update the runtime. *)
Definition this {A} (f : Socket → A) : M A := λ st, (Return (f (self st)), st).
Definition env {A} (f : World → A) : M A := λ st, (Return (f (world st)), st).
Definition update (f : Socket → Socket) : M unit :=
  λ st, (Return tt, MkState (f (self st)) (world st)).
Definition update_env (f : World → World) : M unit :=
  λ st, (Return tt, MkState (self st) (f (world st))).

(** ** Runtime primitives *)

(** [this.#emitter.emit(event, payload)].  The subscribers are outside the
    model; the trace records what they are handed, in order. *)
Definition emit (e : SocketEvent.t) (d : SocketEventData) : M unit :=
  update_env (λ w, set_emitted (emitted w ++ [(e, d)]) w).

(** [Date.now()] *)
Definition Date_now : M Z := env now.

(** [setTimeout] and [setInterval] never hand out a handle twice: the new
    handle differs from every handle handed out before, fired or cancelled
    or live, and from every live timer's. *)
Definition next_handle (w : World) : Timeout := fresh (issued w ∪ dom (scheduled w)).

Definition schedule (t : Timer) : M Timeout :=
  w ← env id;
  let h := next_handle w in
  update_env (λ w, set_issued ({[h]} ∪ issued w) (set_scheduled (<[h := t]> (scheduled w)) w));;
  ret h.

Definition setTimeout (cb : TimerCallback) (ms : Q) : M Timeout :=
  schedule {| kind := Once; callback := cb; delay := ms |}.
Definition setInterval (cb : TimerCallback) (ms : Q) : M Timeout :=
  schedule {| kind := Repeating; callback := cb; delay := ms |}.
Definition clearTimeout (h : Timeout) : M unit :=
  update_env (λ w, set_scheduled (delete h (scheduled w)) w).

(** A fresh empty array. *)
Definition new_array : M ArrayRef :=
  w ← env id;
  let r := fresh (dom (arrays w)) in
  update_env (set_arrays (<[r := []]> (arrays w)));;
  ret r.

Definition read_array (r : ArrayRef) : M (list MessageEvent) :=
  env (λ w, default [] (arrays w !! r)).

(** [array.push(ev)] *)
Definition push_array (r : ArrayRef) (ev : MessageEvent) : M unit :=
  update_env (λ w, set_arrays (<[r := default [] (arrays w !! r) ++ [ev]]> (arrays w)) w).

Definition TypeError_undefined : Error :=
  {| message := "Cannot read properties of undefined" |}.
Definition InvalidStateError : Error :=
  {| message := "Still in CONNECTING state" |}.

(** Transports are reached through their reference.  A reference that names
    no object cannot arise in JavaScript; on such a state the primitives
    below do nothing. *)
Definition ws_readyState (r : SocketRef) (w : World) : option WebSocket.ReadyState :=
  WebSocket.readyState <$> sockets w !! r.

Definition ws_alter (f : WebSocket.t → WebSocket.t) (r : SocketRef) : M unit :=
  update_env (λ w, set_sockets (alter f r (sockets w)) w).

(** [new WebSocket(url, protocols)]: throws on a rejected address, else a
    transport in state [CONNECTING] with no handler wired yet. *)
Definition WebSocket_new (u : string) (protocols : option (list string)) : M SocketRef :=
  match rejects u with
  | Some e => throw e
  | None =>
      w ← env id;
      let r := fresh (dom (sockets w)) in
      update_env (set_sockets (<[r :=
        {| WebSocket.readyState := WebSocket.CONNECTING;
           WebSocket.url := u;
           WebSocket.protocol := "";
           WebSocket.extensions := "";
           WebSocket.binaryType := blob;
           WebSocket.onopen := noop;
           WebSocket.onclose := noop;
           WebSocket.onerror := noop;
           WebSocket.onmessage := {| msg_callback := noop; msg_inBuffer := 0%nat |};
           WebSocket.sent := [] |}]> (sockets w)));;
      ret r
  end.

(** [ws.send(frame)]: throws while [CONNECTING], transmits while [OPEN], and
    silently discards the frame once closing or closed. *)
Definition ws_send (r : SocketRef) (frame : OutData) : M unit :=
  rs ← env (ws_readyState r);
  match rs with
  | Some WebSocket.CONNECTING => throw InvalidStateError
  | Some WebSocket.OPEN => ws_alter (λ x, WebSocket.set_sent (WebSocket.sent x ++ [frame]) x) r
  | _ => ret tt
  end.

(** [ws.close()]: starts closing unless already closing or closed. *)
Definition ws_close (r : SocketRef) : M unit :=
  rs ← env (ws_readyState r);
  match rs with
  | Some WebSocket.CONNECTING | Some WebSocket.OPEN =>
      ws_alter (WebSocket.set_readyState WebSocket.CLOSING) r
  | _ => ret tt
  end.

(** [controller.abort(reason)]: the first call marks the signal aborted and
    runs its listeners, each of which closes its transport. *)
Definition controller_abort (c : AbortController) : M unit :=
  if aborted c then ret tt
  else
    update (set_controller (Some {| aborted := true; listeners := listeners c |}));;
    for_of (listeners c) ws_close.

Definition len {A} (l : list A) : Z := Z.of_nat (length l).

Definition Qlt_bool (a b : Q) : bool := negb (Qle_bool b a).

(** ** Private methods *)

(** [this.#timers[timer]], when it holds a handle. *)
Definition pending (timer : string) (s : Socket) : option Timeout :=
  match timers s !! timer with
  | Some (Some h) => Some h
  | _ => None
  end.

(** [this.#timers[timer] = h] *)
Definition set_timer (timer : string) (h : option Timeout) : M unit :=
  update (λ s, set_timers (<[timer := h]> (timers s)) s).

Definition clearTimer (timer : string) : M unit :=
  t ← this (pending timer);
  match t with
  | Some h => clearTimeout h;; set_timer timer None
  | None => ret tt
  end.

(** compresso's [keysOf]: the keys the object has, set or [undefined]. *)
Definition keysOf (ts : gmap string (option Timeout)) : list string := elements (dom ts).

Definition flushTimers : M unit :=
  ks ← this (λ s, keysOf (timers s));
  for_of ks clearTimer.

Definition cleanup : M unit :=
  flushTimers;;
  rc ← this retryCall;
  if rc then update (set_retryCall false)
  else
    update (set_outBuffer []);;
    r ← new_array;
    update (set_inBuffer r);;
    update (set_retries 0).

Definition provideUrl : M string :=
  s ← this id;
  u ← match urlProvider s with
      | StaticUrl u => ret u
      | DynamicUrl f => call (f (retries s) (prevUrl s))
      end;
  update (set_prevUrl (Some u));;
  ret u.

(** The getter [active]: [!!this.#connected && !this.#paused]. *)
Definition active (s : Socket) : bool := default false (connected s) && negb (paused s).

Definition timestamp : M Z :=
  next ← Date_now;
  update (λ s, set_upTime (upTime s + (next - prevTimeStamp s)) s);;
  ret next.

(** The getter [uptime]; reading it while active moves the checkpoint. *)
Definition uptime : M Z :=
  a ← this active;
  (if a then t ← timestamp; update (set_prevTimeStamp t) else ret tt);;
  this upTime.

Definition shouldReconnect : M bool :=
  s ← this id;
  let retryOpts := SocketConfig.retry (opts s) in
  if negb (disconnectCall s) && negb (isEmptyObj retryOpts)
     && (retries s <? RetryConfig.amount retryOpts)
  then u ← uptime; ret (Qle_bool (RetryConfig.minUpTime retryOpts) (inject_Z u))
  else ret false.

Definition startKATimer : M unit :=
  clearTimer "keepAlive";;
  t ← this (λ s, SocketConfig.timeout (opts s));
  when (Qlt_bool 0 t)
    (h ← setTimeout KeepAliveExpired t; set_timer "keepAlive" (Some h)).

Definition syncInBuffer : M unit :=
  bufferOpts ← this (λ s, SocketConfig.buffer (opts s));
  r ← this inBuffer;
  inBuf ← read_array r;
  match bufferOpts with
  | Some b =>
      when (negb (len inBuf =? 0) && (len inBuf >? BufferConfig.min b))
        (for_of inBuf (λ bufferedEvents,
           emit SocketEvent.data (MessageData bufferedEvents);;
           cb ← this dataCallback;
           match cb with
           | Some f => call (f bufferedEvents)
           | None => throw TypeError_undefined
           end);;
         r' ← new_array;
         update (set_inBuffer r'))
  | None => ret tt
  end.

(** Nothing inside the loop assigns [#ws], which is read once here. *)
Definition syncOutBuffer : M unit :=
  w ← this ws;
  match w with
  | None => ret tt
  | Some r =>
      bufferOpts ← this (λ s, SocketConfig.buffer (opts s));
      buf ← this outBuffer;
      match bufferOpts with
      | Some b =>
          when (negb (len buf =? 0) && (len buf >=? BufferConfig.min b))
            (for_of (take (Z.to_nat (Z.min (BufferConfig.max b) (len buf))) buf)
               (λ x,
                  p ← this parser;
                  frame ← call (p x);
                  ws_send r frame;;
                  emit SocketEvent.send undefined);;
             update (set_outBuffer []))
      | None => ret tt
      end
  end.

Definition sync : M unit :=
  syncInBuffer;;
  syncOutBuffer;;
  update (set_retryCall false);;
  n ← Date_now;
  update (set_prevTimeStamp n).

(** ** Public methods *)

(** The delay handed to [setTimeout] by [reconnect], as a function of the
    value [#retries] has when the argument is evaluated:
    [min(startDelay * ((retries + 1) * delayFactor), maxDelay)], both
    products being the runtime's. *)
Definition retry_delay (retry : RetryConfig.t) (retries_now : Z) : Q :=
  Qmin (times (RetryConfig.startDelay retry)
          (times (inject_Z (retries_now + 1)) (RetryConfig.delayFactor retry)))
       (RetryConfig.maxDelay retry).

Definition reconnect : M unit :=
  s ← this id;
  let retry := SocketConfig.retry (opts s) in
  if bool_decide (is_Some (pending "retry" s)) || (retries s >=? RetryConfig.amount retry)
  then ret tt
  else
    clearTimer "retry";;
    update (λ s, set_retries (retries s + 1) s);;
    update (set_retryCall true);;
    n ← this retries;
    h ← setTimeout RetryFired (retry_delay retry n);
    set_timer "retry" (Some h).

Definition abort (reason : Reason) : M unit :=
  c ← this controller;
  match c with
  | Some ctl => controller_abort ctl
  | None => ret tt
  end;;
  onAbort ← this (λ s, RetryConfig.onAbort (SocketConfig.retry (opts s)));
  if onAbort then reconnect
  else
    let errorAbort := isError reason in
    emit (if errorAbort then SocketEvent.error else SocketEvent.abort)
         (ErrorData (match reason with Failure e => e | _ => newError reason end)).

Definition disconnect : M unit :=
  w ← this ws;
  match w with
  | None => ret tt
  | Some r =>
      update (set_disconnectCall true);;
      update (set_connected (Some false));;
      ws_close r;;
      update (set_ws None);;
      c ← this controller;
      l ← this abortListener;
      match c, l with
      | Some ctl, Some f =>
          (* removeEventListener, then the controller is dropped *)
          update (set_controller
                    (Some {| aborted := aborted ctl;
                             listeners := filter (λ g, g ≠ f) (listeners ctl) |}));;
          update (set_controller None)
      | _, _ => ret tt
      end;;
      cleanup
  end.

Definition connect : M unit :=
  w ← this ws;
  when (bool_decide (is_Some w)) disconnect;;
  emit SocketEvent.preConnect undefined;;
  try_catch
    (u ← provideUrl;
     ps ← this protocols;
     r ← WebSocket_new u ps;
     update (set_ws (Some r));;
     update (set_controller (Some {| aborted := false; listeners := [] |}));;
     update (set_abortListener (Some r));;
     update (set_controller (Some {| aborted := false; listeners := [r] |}));;
     s ← this id;
     ws_alter (WebSocket.set_handlers (openCallback s) (closeCallback s)
                 (errCallback s) (msgCallback s)) r;;
     ws_alter (WebSocket.set_binaryType (binary s)) r;;
     update (set_closeCall false);;
     update (set_disconnectCall false))
    (λ err,
       abort (Failure {| message := "Error when trying to connect to server: "
                                     +:+ message err |})).

(** The central handlers.  Each setter builds a wrapper closure around the
    user's callback; the wrapper is what [connect] wires to the transport.
    [openHandler callback] is the body of the closure built by
    [onOpen(callback)], and so on. *)

Definition onOpen (callback : Callback Event) : M unit :=
  update (set_openCallback callback).

Definition openHandler (callback : Callback Event) (event : Event) : M unit :=
  update (set_connected (Some true));;
  startKATimer;;
  emit SocketEvent.open undefined;;
  call (callback event);;
  sync.

Definition onClose (callback : Callback CloseEvent) : M unit :=
  update (set_closeCallback callback).

Definition closeHandler (callback : Callback CloseEvent) (event : CloseEvent) : M unit :=
  cc ← this closeCall;
  if cc then ret tt
  else
    update (set_closeCall true);;
    clearTimer "keepAlive";;
    emit SocketEvent.close (CloseData event);;
    call (callback event);;
    sr ← shouldReconnect;
    when sr reconnect;;
    update (set_connected (Some false)).

Definition onData (callback : Callback MessageEvent) : M unit :=
  inBuf ← this inBuffer;
  update (set_dataCallback (Some callback));;
  update (set_msgCallback {| msg_callback := callback; msg_inBuffer := inBuf |}).

Definition messageHandler (c : MsgClosure) (event : MessageEvent) : M unit :=
  try_catch
    (p ← this paused;
     if negb p then
       emit SocketEvent.data (MessageData event);;
       s ← this id;
       when (pingStart s || (heartBeatRunning s && String.eqb (data event) PongContent))
         (emit SocketEvent.pong undefined;;
          clearTimer "ping";;
          update (set_pingStart false));;
       syncInBuffer;;
       call (msg_callback c event)
     else
       bufferOpts ← this (λ s, SocketConfig.buffer (opts s));
       inBuf ← read_array (msg_inBuffer c);
       match bufferOpts with
       | Some b => when (len inBuf <? BufferConfig.max b) (push_array (msg_inBuffer c) event)
       | None => ret tt
       end)
    (λ err, abort (Failure {| message := "Error receiving data: " +:+ message err |})).

Definition onError (callback : Callback ErrorEvent) : M unit :=
  update (set_errCallback callback).

Definition errorHandler (callback : Callback ErrorEvent) (event : ErrorEvent) : M unit :=
  clearTimer "keepAlive";;
  emit SocketEvent.error (ErrorData (error event));;
  call (callback event);;
  sr ← shouldReconnect;
  when sr reconnect.

Definition pause : M unit :=
  update (set_paused true);;
  clearTimer "ping";;
  clearTimer "heartbeat".

Definition ping : M unit :=
  clearTimer "ping";;
  a ← this active;
  w ← this ws;
  match w with
  | Some r =>
      when a
        (update (set_pingStart true);;
         emit SocketEvent.ping undefined;;
         ws_send r PingContent;;
         t ← this (λ s, PingConfig.timeout (SocketConfig.ping (opts s)));
         h ← setTimeout PingTimedOut t;
         set_timer "ping" (Some h))
  | None => ret tt
  end.

Definition resume : M unit :=
  p ← this paused;
  when p sync;;
  update (set_paused false).

Definition send (data : Out) (parser : Parser) : M unit :=
  bufferOpts ← this (λ s, SocketConfig.buffer (opts s));
  buf ← this outBuffer;
  w ← this ws;
  rs ← env (λ e, w ≫= (λ r, ws_readyState r e));
  p ← this paused;
  if bool_decide (rs = Some WebSocket.OPEN) && negb p then
    update (set_parser parser);;
    try_catch
      (syncOutBuffer;;
       when (truthy data)
         (frame ← call (parser data);
          match w with
          | Some r => ws_send r frame
          | None => throw TypeError_undefined
          end;;
          emit SocketEvent.send undefined))
      (λ err, abort (Failure {| message := "Error sending message: " +:+ message err |}))
  else
    match bufferOpts with
    | Some b =>
        when (truthy data && (len buf <? BufferConfig.max b))
          (update (set_outBuffer (buf ++ [data])))
    | None => ret tt
    end.

(** The closure [sendPing] of [startBeat]. *)
Definition sendPing : M unit :=
  emit SocketEvent.ping undefined;;
  w ← this ws;
  match w with
  | Some r => ws_send r PingContent
  | None => throw TypeError_undefined
  end;;
  t ← this (λ s, PingConfig.timeout (SocketConfig.ping (opts s)));
  h ← setTimeout BeatPingTimedOut t;
  set_timer "ping" (Some h).

Definition startBeat : M unit :=
  s ← this id;
  when (active s && bool_decide (is_Some (ws s)) && negb (pingStart s))
    (update (set_heartBeatRunning true);;
     clearTimer "heartbeat";;
     t ← this (λ s, PingConfig.heartbeat (SocketConfig.ping (opts s)));
     h ← setInterval BeatTick t;
     set_timer "heartbeat" (Some h);;
     sendPing).

Definition stopBeat : M unit :=
  clearTimer "heartbeat";;
  update (set_heartBeatRunning false).

(** The setter of [binary]. *)
Definition set_binary_type (type : BinaryType) : M unit :=
  update (set_binary type);;
  w ← this ws;
  match w with
  | Some r => ws_alter (WebSocket.set_binaryType type) r
  | None => ret tt
  end.

(** ** Read-only observables *)

Definition the_ws (st : State) : option WebSocket.t :=
  ws (self st) ≫= (λ r, sockets (world st) !! r).

Definition beating (st : State) : bool := heartBeatRunning (self st).
Definition extensions (st : State) : string :=
  default "" (WebSocket.extensions <$> the_ws st).
Definition protocol (st : State) : string :=
  default "" (WebSocket.protocol <$> the_ws st).
Definition readyState (st : State) : WebSocket.ReadyState :=
  default WebSocket.CLOSED (WebSocket.readyState <$> the_ws st).
Definition url (st : State) : string :=
  default "" (WebSocket.url <$> the_ws st).

(** ** Construction *)

(** The object as the field initialisers and the constructor body leave it,
    [options] being the result of merging the caller's options onto
    [DefaultOptions]; [r] is the fresh inbound array. *)
Definition fresh_socket (provider : UrlProvider) (options : SocketConfig.t)
    (r : ArrayRef) : Socket :=
  {| abortListener := None;
     binary := SocketConfig.binary options;
     closeCall := false;
     closeCallback := noop;
     connected := None;
     controller := None;
     dataCallback := Some noop;
     disconnectCall := false;
     errCallback := noop;
     heartBeatRunning := false;
     inBuffer := r;
     msgCallback := {| msg_callback := noop; msg_inBuffer := r |};
     openCallback := noop;
     opts := options;
     outBuffer := [];
     parser := stringify;
     paused := false;
     pingStart := false;
     prevTimeStamp := 0;
     prevUrl := None;
     protocols := SocketConfig.protocol options;
     retries := 0;
     retryCall := false;
     timers := ∅;
     upTime := 0;
     urlProvider := provider;
     ws := None |}.

Definition constructor (provider : UrlProvider) (options : SocketConfig.t)
    (w : World) : Outcome unit * State :=
  let r := fresh (dom (arrays w)) in
  when (SocketConfig.immediate options) connect
    (MkState (fresh_socket provider options r) (set_arrays (<[r := []]> (arrays w)) w)).

(** ** Turns of the event loop *)

(** What runs when a timer expires. *)
Definition fire (cb : TimerCallback) : M unit :=
  match cb with
  | KeepAliveExpired => disconnect;; connect
  | PingTimedOut =>
      strict ← this (λ s, PingConfig.strict (SocketConfig.ping (opts s)));
      if strict then abort (Message "Error: No response received on ping.")
      else disconnect
  | BeatPingTimedOut => disconnect;; connect;; startBeat
  | BeatTick => sendPing
  | RetryFired =>
      emit SocketEvent.reconnect undefined;;
      w ← this ws;
      rs ← env (λ e, w ≫= (λ r, ws_readyState r e));
      (if bool_decide (w = None) || bool_decide (rs = Some WebSocket.CLOSED)
       then connect
       else disconnect;; connect);;
      update (set_retryCall false)
  end.

(** One turn: a call from the application, the clock moving on, a timer
    expiring, or the transport reporting on one of its objects.  [Abort]
    carries the second argument that the published declaration
    ([index.d.ts]) admits; the method has one parameter and JavaScript drops
    the rest.  [Send] without a parser uses the default, [stringify].  [on],
    [off] and the getters other than [uptime] change nothing and are not
    turns.  The transport is not restricted in what it reports: an event on
    an object sets the ready state it implies and runs the handler wired to
    that object. *)
Inductive Op :=
| Connect
| Disconnect
| Pause
| Resume
| Reconnect
| Abort (reason : Reason) (payload : option Out)
| Ping
| StartBeat
| StopBeat
| Send (data : Out) (parser : option Parser)
| OnOpen (callback : Callback Event)
| OnClose (callback : Callback CloseEvent)
| OnData (callback : Callback MessageEvent)
| OnError (callback : Callback ErrorEvent)
| SetBinary (type : BinaryType)
| GetUptime
| Elapse (ms : Z)
| Expire (h : Timeout)
| Opened (r : SocketRef) (protocol extensions : string)
| Closed (r : SocketRef) (event : CloseEvent)
| Errored (r : SocketRef) (event : ErrorEvent)
| Received (r : SocketRef) (event : MessageEvent).

Definition step (op : Op) : M unit :=
  match op with
  | Connect => connect
  | Disconnect => disconnect
  | Pause => pause
  | Resume => resume
  | Reconnect => reconnect
  | Abort reason _ => abort reason
  | Ping => ping
  | StartBeat => startBeat
  | StopBeat => stopBeat
  | Send data parser => send data (default stringify parser)
  | OnOpen callback => onOpen callback
  | OnClose callback => onClose callback
  | OnData callback => onData callback
  | OnError callback => onError callback
  | SetBinary type => set_binary_type type
  | GetUptime => uptime;; ret tt
  | Elapse ms => update_env (λ w, set_now (now w + ms) w)
  | Expire h =>
      t ← env (λ w, scheduled w !! h);
      match t with
      | Some t =>
          match kind t with Once => clearTimeout h | Repeating => ret tt end;;
          fire (callback t)
      | None => ret tt
      end
  | Opened r p e =>
      x ← env (λ w, sockets w !! r);
      match x with
      | Some x =>
          ws_alter (λ x, WebSocket.set_negotiated p e (WebSocket.set_readyState WebSocket.OPEN x)) r;;
          openHandler (WebSocket.onopen x) tt
      | None => ret tt
      end
  | Closed r event =>
      x ← env (λ w, sockets w !! r);
      match x with
      | Some x =>
          ws_alter (WebSocket.set_readyState WebSocket.CLOSED) r;;
          closeHandler (WebSocket.onclose x) event
      | None => ret tt
      end
  | Errored r event =>
      x ← env (λ w, sockets w !! r);
      match x with
      | Some x => errorHandler (WebSocket.onerror x) event
      | None => ret tt
      end
  | Received r event =>
      x ← env (λ w, sockets w !! r);
      match x with
      | Some x => messageHandler (WebSocket.onmessage x) event
      | None => ret tt
      end
  end.

(** A sequence of turns; an exception nobody caught ends its turn and the
    state it left behind stays. *)
Definition run (ops : list Op) (st : State) : State :=
  foldl (λ st op, (step op st).2) st ops.

(** The world before anything ran. *)
Definition genesis : World :=
  {| now := 0; scheduled := ∅; issued := ∅; sockets := ∅; arrays := ∅; emitted := [] |}.

(** ** Vocabulary of the statements *)

(** The content of [this.#inBuffer]. *)
Definition inbound (st : State) : list MessageEvent :=
  default [] (arrays (world st) !! inBuffer (self st)).

(** The frames a transport has put on the wire. *)
Definition transmitted (r : SocketRef) (st : State) : list OutData :=
  default [] (WebSocket.sent <$> sockets (world st) !! r).

(** The state a computation leaves, and the state after [n] calls of it. *)
Definition after {A} (m : M A) (st : State) : State := (m st).2.


(** [m] keeps [P], whether it returns or throws. *)
Definition preserves {A} (P : State → Prop) (m : M A) : Prop :=
  ∀ st, P st → P (after m st).

(** The state [clearTimer timer] leaves. *)
Definition cleared (timer : string) (st : State) : State :=
  match pending timer (self st) with
  | Some h =>
      MkState (set_timers (<[timer := None]> (timers (self st))) (self st))
              (set_scheduled (delete h (scheduled (world st))) (world st))
  | None => st
  end.

(** What [cleanup] establishes in [st'], for the state [st] it starts from. *)
Definition cleaned (st st' : State) : Prop :=
  (∀ name, pending name (self st') = None)
  ∧ (∀ name h, pending name (self st) = Some h → scheduled (world st') !! h = None)
  ∧ (retryCall (self st) = false →
       outBuffer (self st') = [] ∧ inbound st' = [] ∧ retries (self st') = 0)
  ∧ (retryCall (self st) = true →
       outBuffer (self st') = outBuffer (self st)
       ∧ inbound st' = inbound st
       ∧ retries (self st') = retries (self st)).

(** The outbound queue respects the capacity [b]. *)
Definition bounded (b : BufferConfig.t) : State → Prop :=
  λ st, SocketConfig.buffer (opts (self st)) = Some b
        ∧ len (outBuffer (self st)) ≤ BufferConfig.max b.

End Sockolate.

(** The delay of the reconnection policy as the specification words it:
    [min(startDelay * (attemptNumber * delayFactor), maxDelay)], where
    [attemptNumber] is the retry count right after the increment.  To be
    compared with [retry_delay], which is what the code computes. *)
Definition spec_delay (retry : RetryConfig.t) (attemptNumber : Z) : Q :=
  Qmin (RetryConfig.startDelay retry
          * (inject_Z attemptNumber * RetryConfig.delayFactor retry))
       (RetryConfig.maxDelay retry).

(** ** Further vocabulary *)

Section Vocabulary.

Context `{Platform}.

(** [m] never throws. *)
Definition unfailing {A} (m : M A) : Prop := ∀ st, ∃ a, (m st).1 = Return a.

(** The address [provideUrl] resolves to, or the exception of the
    provider. *)
Definition resolved (s : Socket) : Outcome string :=
  match urlProvider s with
  | StaticUrl u => Return u
  | DynamicUrl f => f (retries s) (prevUrl s)
  end.

(** The outcome of resolving the address and constructing a transport on
    it. *)
Definition attempted (s : Socket) : Outcome string :=
  match resolved s with
  | Return u => match rejects u with Some e => Throw e | None => Return u end
  | Throw e => Throw e
  end.

(** What the getter [uptime] returns in [st]. *)
Definition uptime_read (st : State) : Z :=
  if active (self st)
  then upTime (self st) + (now (world st) - prevTimeStamp (self st))
  else upTime (self st).

(** The guard [shouldReconnect], as a function of the state. *)
Definition eligible (st : State) : bool :=
  negb (disconnectCall (self st))
  && (retries (self st) <? RetryConfig.amount (SocketConfig.retry (opts (self st))))
  && Qle_bool (RetryConfig.minUpTime (SocketConfig.retry (opts (self st))))
       (inject_Z (uptime_read st)).

(** The content of the array a message closure pushes into. *)
Definition captured (c : MsgClosure) (st : State) : list MessageEvent :=
  default [] (arrays (world st) !! msg_inBuffer c).

(** The retry state and the timer table of [st'] hold nothing that [st]
    did not. *)
Definition retry_untouched (st st' : State) : Prop :=
  retries (self st') = retries (self st)
  ∧ pending "retry" (self st') = pending "retry" (self st)
  ∧ retryCall (self st') = retryCall (self st)
  ∧ ∀ h, scheduled (world st) !! h = None → scheduled (world st') !! h = None.

(** The test of the message handler for taking a message as the answer
    to a ping. *)
Definition answers_ping (st : State) (event : MessageEvent) : bool :=
  pingStart (self st)
  || (heartBeatRunning (self st) && String.eqb (data event) PongContent).

(** [connect] once any existing transport has been torn down: what is
    left of its body after [if (this.#ws) this.disconnect()]. *)
Definition connect_attempt : M unit :=
  emit SocketEvent.preConnect undefined;;
  try_catch
    (u ← provideUrl;
     ps ← this protocols;
     r ← WebSocket_new u ps;
     update (set_ws (Some r));;
     update (set_controller (Some {| aborted := false; listeners := [] |}));;
     update (set_abortListener (Some r));;
     update (set_controller (Some {| aborted := false; listeners := [r] |}));;
     s ← this id;
     ws_alter (WebSocket.set_handlers (openCallback s) (closeCallback s)
                 (errCallback s) (msgCallback s)) r;;
     ws_alter (WebSocket.set_binaryType (binary s)) r;;
     update (set_closeCall false);;
     update (set_disconnectCall false))
    (λ err,
       abort (Failure {| message := "Error when trying to connect to server: "
                                     +:+ message err |})).

(** The retry slot holds [h] and the timer table is [S]. *)
Definition slot_taken (h : Timeout) (S : gmap Timeout Timer) : State → Prop :=
  λ st, pending "retry" (self st) = Some h ∧ scheduled (world st) = S.


End Vocabulary.

(** ** A concrete platform and the scenarios of the test suite

    [Out] is [string], falsy when empty; the default parser quotes its
    argument; the constructor rejects the address the tests call invalid.
    Every number of the scenarios is an integer of a few digits, and on
    those the product of doubles is the exact product. *)

Module Demo.

Definition platform : Platform :=
  {| Out := string;
     truthy := λ s, negb (String.eqb s "");
     stringify := λ s, Return (dq +:+ s +:+ dq);
     rejects := λ u,
       if String.eqb u "invalid-url"
       then Some {| message := "The URL 'invalid-url' is invalid." |}
       else None;
     times := Qmult |}.
#[local] Existing Instance platform.

Definition URL : string := "ws://localhost:50123/".

Definition with_retry (r : RetryConfig.t) (o : SocketConfig.t) : SocketConfig.t :=
  {| SocketConfig.binary := SocketConfig.binary o;
     SocketConfig.buffer := SocketConfig.buffer o;
     SocketConfig.immediate := SocketConfig.immediate o;
     SocketConfig.ping := SocketConfig.ping o;
     SocketConfig.protocol := SocketConfig.protocol o;
     SocketConfig.retry := r;
     SocketConfig.timeout := SocketConfig.timeout o |}.

Definition with_buffer (b : BufferConfig.t) (o : SocketConfig.t) : SocketConfig.t :=
  {| SocketConfig.binary := SocketConfig.binary o;
     SocketConfig.buffer := Some b;
     SocketConfig.immediate := SocketConfig.immediate o;
     SocketConfig.ping := SocketConfig.ping o;
     SocketConfig.protocol := SocketConfig.protocol o;
     SocketConfig.retry := SocketConfig.retry o;
     SocketConfig.timeout := SocketConfig.timeout o |}.

(** [DefaultRetryOptions] of the test suite. *)
Definition DefaultRetryOptions : RetryConfig.t :=
  {| RetryConfig.amount := 1;
     RetryConfig.delayFactor := 1;
     RetryConfig.maxDelay := 100;
     RetryConfig.minUpTime := 0;
     RetryConfig.onAbort := false;
     RetryConfig.startDelay := 100 |}.

(** The same with a cap that does not hide the product. *)
Definition UncappedRetryOptions : RetryConfig.t :=
  {| RetryConfig.amount := 1;
     RetryConfig.delayFactor := 1;
     RetryConfig.maxDelay := 1000;
     RetryConfig.minUpTime := 0;
     RetryConfig.onAbort := false;
     RetryConfig.startDelay := 100 |}.

(** [new Socket(URL, options)] *)
Definition created (options : SocketConfig.t) : State :=
  (constructor (StaticUrl URL) options genesis).2.

(** [await waitForConnection(socket)]: the first transport is object 0. *)
Definition opened (options : SocketConfig.t) : State :=
  run [Connect; Opened 0%nat "" ""] (created options).

Definition paused_ (options : SocketConfig.t) : State :=
  run [Pause] (opened options).

(** A ping is awaiting its pong. *)
Definition pinged : State := run [Ping] (opened DefaultOptions).

(** The remote closed the connection while a ping was outstanding. *)
Definition pinged_then_closed : State :=
  run [Closed 0%nat {| code := 1000; reason := "Normal closure"; wasClean := true |}] pinged.

(** Connected for 4050 ms, and the uptime read. *)
Definition aged : State := run [Elapse 4050; GetUptime] (opened DefaultOptions).

(** A heartbeat is running. *)
Definition beat : State := run [StartBeat] (opened DefaultOptions).

(** A retry timer is armed. *)
Definition retrying : State :=
  run [Reconnect] (created (with_retry DefaultRetryOptions DefaultOptions)).

(** A retry timer is armed on a socket with one message queued. *)
Definition queued_retrying : State :=
  run [Send "msg1" None; Reconnect]
    (paused_ (with_retry DefaultRetryOptions DefaultOptions)).




(** One message queued while paused, no reconnect cycle in progress. *)
Definition queued : State := run [Send "msg1" None; Pause; Send "msg2" None] beat.

(** The options of the capacity test, [buffer: { max: 10 }]. *)
Definition capacity : BufferConfig.t := {| BufferConfig.max := 10; BufferConfig.min := 0 |}.

(** The payload [{ id: 123 }] of the abort test, as its JSON text. *)
Definition payload : string := "{" +:+ dq +:+ "id" +:+ dq +:+ ":123}".

(** The default parser's encoding. *)
Definition quoted (s : string) : OutData := dq +:+ s +:+ dq.

(** The payloads ["0"], ["1"], ... of the capacity test. *)
Definition items (n : nat) : list string := map pretty (seq 0 n).

Definition sends (xs : list string) : list Op := map (λ x, Send x None) xs.

End Demo.

(** ** Further scenarios *)

Module Cases.

Import Demo.
#[local] Existing Instance Demo.platform.

(** [new Socket('invalid-url')] *)
Definition misaddressed : State :=
  (constructor (StaticUrl "invalid-url") DefaultOptions genesis).2.

Definition invalid_url : Error := {| message := "The URL 'invalid-url' is invalid." |}.

(** The parser of the test 'errors on faulty data parser'. *)
Definition faulty : Parser := λ data, Throw {| message := data |}.

Definition hello : MessageEvent := {| data := "server1" |}.
Definition again : MessageEvent := {| data := "server2" |}.

(** A connection that may retry once. *)
Definition retriable : State := opened (with_retry DefaultRetryOptions DefaultOptions).


Definition remote_close : CloseEvent := {| code := 1006; reason := ""; wasClean := false |}.

(** Two messages received while paused. *)
Definition backlog : State := run [Received 0%nat hello; Received 0%nat again]
                                (paused_ DefaultOptions).

(** Paused again after a first backlog has been released. *)
Definition paused_again : State :=
  run [Received 0%nat hello; Resume; Pause] (paused_ DefaultOptions).

Definition with_ping (p : PingConfig.t) (o : SocketConfig.t) : SocketConfig.t :=
  {| SocketConfig.binary := SocketConfig.binary o;
     SocketConfig.buffer := SocketConfig.buffer o;
     SocketConfig.immediate := SocketConfig.immediate o;
     SocketConfig.ping := p;
     SocketConfig.protocol := SocketConfig.protocol o;
     SocketConfig.retry := SocketConfig.retry o;
     SocketConfig.timeout := SocketConfig.timeout o |}.

(** [ping: { strict: false, timeout: 2000 }] *)
Definition lenient : State :=
  opened (with_ping {| PingConfig.heartbeat := 5000; PingConfig.strict := false;
                       PingConfig.timeout := 2000 |} DefaultOptions).

(** Two payloads sent before connecting; the transport has just become
    open and its handler is about to run. *)
Definition opening : State :=
  (ws_alter (WebSocket.set_readyState WebSocket.OPEN) 0%nat
     (run [Send "0" None; Send "1" None; Connect] (created DefaultOptions))).2.

End Cases.


(** * Properties *)

Section Properties.

Context `{Platform}.

(** ** Running the monad *)

Lemma bind_returns {A B} (m : M A) (k : A → M B) st a st' :
  m st = (Return a, st') → bind m k st = k a st'.
Proof. intros E. unfold bind. now rewrite E. Qed.

Lemma bind_throws {A B} (m : M A) (k : A → M B) st e st' :
  m st = (Throw e, st') → bind m k st = (Throw e, st').
Proof. intros E. unfold bind. now rewrite E. Qed.

(** ** Frame rules: what a computation keeps *)

Lemma preserves_ret {A} P (a : A) : preserves P (ret a).
Proof. intros st HP. exact HP. Qed.

Lemma preserves_throw {A} P e : preserves P (throw (A := A) e).
Proof. intros st HP. exact HP. Qed.

Lemma preserves_bind {A B} P (m : M A) (k : A → M B) :
  preserves P m → (∀ a, preserves P (k a)) → preserves P (bind m k).
Proof.
  intros Hm Hk st HP. specialize (Hm st HP). unfold after, bind in *.
  destruct (m st) as [[a | e] st']; simpl in *.
  - apply Hk, Hm.
  - exact Hm.
Qed.

Lemma preserves_try_catch {A} P (m : M A) (h : Error → M A) :
  preserves P m → (∀ e, preserves P (h e)) → preserves P (try_catch m h).
Proof.
  intros Hm Hh st HP. specialize (Hm st HP). unfold after, try_catch in *.
  destruct (m st) as [[a | e] st']; simpl in *.
  - exact Hm.
  - apply Hh, Hm.
Qed.

Lemma preserves_when P b (m : M unit) : preserves P m → preserves P (when b m).
Proof. destruct b; [trivial | intros _; apply preserves_ret]. Qed.

Lemma preserves_call {A} P (o : Outcome A) : preserves P (call o).
Proof. destruct o; intros st HP; exact HP. Qed.

Lemma preserves_for_of {A} P (xs : list A) (body : A → M unit) :
  (∀ x, preserves P (body x)) → preserves P (for_of xs body).
Proof.
  intros Hb. induction xs as [| x xs IH]; simpl.
  - apply preserves_ret.
  - apply preserves_bind; [apply Hb | intros _; exact IH].
Qed.

Lemma preserves_this {A} P (f : Socket → A) : preserves P (this f).
Proof. intros st HP. exact HP. Qed.

Lemma preserves_env {A} P (f : World → A) : preserves P (env f).
Proof. intros st HP. exact HP. Qed.

Lemma preserves_update (P : State → Prop) f :
  (∀ s w, P (MkState s w) → P (MkState (f s) w)) → preserves P (update f).
Proof. intros Hf [s w] HP. apply Hf, HP. Qed.

Lemma preserves_update_env (P : State → Prop) f :
  (∀ s w, P (MkState s w) → P (MkState s (f w))) → preserves P (update_env f).
Proof. intros Hf [s w] HP. apply Hf, HP. Qed.

Create HintDb frame.

Ltac head_of t := lazymatch t with ?f _ => head_of f | _ => t end.

(** Descend through a computation down to its field updates; [leaf] closes
    the goals [P st → P st'] they leave. *)
Ltac frame_with leaf :=
  lazymatch goal with
  | |- preserves _ (bind _ _) => apply preserves_bind; [| intros ?]; frame_with leaf
  | |- preserves _ (try_catch _ _) =>
      apply preserves_try_catch; [| intros ?]; frame_with leaf
  | |- preserves _ (when _ _) => apply preserves_when; frame_with leaf
  | |- preserves _ (for_of _ _) => apply preserves_for_of; intros ?; frame_with leaf
  | |- preserves _ (ret _) => apply preserves_ret
  | |- preserves _ (throw _) => apply preserves_throw
  | |- preserves _ (call _) => apply preserves_call
  | |- preserves _ (this _) => apply preserves_this
  | |- preserves _ (env _) => apply preserves_env
  | |- preserves _ (update _) => apply preserves_update; intros ? ?; leaf
  | |- preserves _ (update_env _) => apply preserves_update_env; intros ? ?; leaf
  | |- preserves _ (match ?x with _ => _ end) => destruct x; frame_with leaf
  | |- preserves _ (let _ := _ in _) => cbv zeta; frame_with leaf
  | |- preserves _ ?m =>
      first [ solve [auto 1 with frame nocore]
            | let h := head_of m in unfold h; frame_with leaf ]
  end.

Ltac keep := let HP := fresh in intros HP; first [exact HP | reflexivity].

(** ** Symbolic execution of straight-line code *)

Lemma bind_ret {A B} (a : A) (k : A → M B) st : bind (ret a) k st = k a st.
Proof. reflexivity. Qed.
Lemma bind_throw {A B} e (k : A → M B) st : bind (throw e) k st = (Throw e, st).
Proof. reflexivity. Qed.
Lemma bind_this {A B} (f : Socket → A) (k : A → M B) st :
  bind (this f) k st = k (f (self st)) st.
Proof. reflexivity. Qed.
Lemma bind_env {A B} (f : World → A) (k : A → M B) st :
  bind (env f) k st = k (f (world st)) st.
Proof. reflexivity. Qed.
Lemma bind_update {B} f (k : unit → M B) st :
  bind (update f) k st = k tt (MkState (f (self st)) (world st)).
Proof. reflexivity. Qed.
Lemma bind_update_env {B} f (k : unit → M B) st :
  bind (update_env f) k st = k tt (MkState (self st) (f (world st))).
Proof. reflexivity. Qed.
Lemma bind_bind {A B C} (m : M A) (k : A → M B) (k' : B → M C) st :
  bind (bind m k) k' st = bind m (λ a, bind (k a) k') st.
Proof. unfold bind. destruct (m st) as [[a | e] st']; reflexivity. Qed.


Ltac exec :=
  repeat first
    [ rewrite bind_bind | rewrite bind_ret | rewrite bind_this | rewrite bind_env
    | rewrite bind_update | rewrite bind_update_env ].

(** ** Timers *)

Lemma clearTimer_runs timer st : clearTimer timer st = (Return tt, cleared timer st).
Proof.
  unfold clearTimer, cleared. rewrite bind_this.
  destruct (pending timer (self st)); reflexivity.
Qed.

Lemma bind_clearTimer {B} timer (k : unit → M B) st :
  bind (clearTimer timer) k st = k tt (cleared timer st).
Proof. apply bind_returns, clearTimer_runs. Qed.

Lemma pending_cleared timer st : pending timer (self (cleared timer st)) = None.
Proof.
  unfold cleared. destruct (pending timer (self st)) eqn:E; [| exact E].
  unfold pending. simpl. now rewrite lookup_insert_eq.
Qed.

Lemma pending_cleared_ne timer name st :
  timer ≠ name → pending name (self (cleared timer st)) = pending name (self st).
Proof.
  intros Hne. unfold cleared. destruct (pending timer (self st)); [| reflexivity].
  unfold pending. simpl. now rewrite lookup_insert_ne.
Qed.

Lemma idle_cleared timer name st :
  pending name (self st) = None → pending name (self (cleared timer st)) = None.
Proof.
  intros Hidle. destruct (decide (timer = name)) as [-> | Hne].
  - apply pending_cleared.
  - now rewrite pending_cleared_ne.
Qed.

Lemma cleared_cancels timer st h :
  pending timer (self st) = Some h → scheduled (world (cleared timer st)) !! h = None.
Proof. intros E. unfold cleared. rewrite E. simpl. apply lookup_delete_eq. Qed.

Lemma cleared_unscheduled timer st h :
  scheduled (world st) !! h = None → scheduled (world (cleared timer st)) !! h = None.
Proof.
  intros E. unfold cleared. destruct (pending timer (self st)); [| exact E].
  simpl. rewrite lookup_delete. case_decide; [reflexivity | exact E].
Qed.

(** [flushTimers] is a fold of [cleared] over the keys. *)
Lemma for_of_clearTimer ks st :
  for_of ks clearTimer st = (Return tt, foldl (λ st k, cleared k st) st ks).
Proof.
  revert st. induction ks as [| k ks IH]; intros st; simpl.
  - reflexivity.
  - rewrite bind_clearTimer. apply IH.
Qed.

Lemma flushTimers_runs st :
  flushTimers st
  = (Return tt, foldl (λ st k, cleared k st) st (keysOf (timers (self st)))).
Proof. unfold flushTimers. rewrite bind_this. apply for_of_clearTimer. Qed.

Lemma fold_cleared_idle ks name st :
  name ∈ ks ∨ pending name (self st) = None →
  pending name (self (foldl (λ st k, cleared k st) st ks)) = None.
Proof.
  revert st. induction ks as [| k ks IH]; intros st [Hin | Hidle]; simpl.
  - inversion Hin.
  - exact Hidle.
  - apply IH. destruct (decide (k = name)) as [-> | Hne].
    + right. apply pending_cleared.
    + left. apply elem_of_cons in Hin as [-> | Hin]; [congruence | exact Hin].
  - apply IH. right. now apply idle_cleared.
Qed.

Lemma fold_cleared_unscheduled ks st h :
  scheduled (world st) !! h = None →
  scheduled (world (foldl (λ st k, cleared k st) st ks)) !! h = None.
Proof.
  revert st. induction ks as [| k ks IH]; intros st E; simpl; [exact E |].
  now apply IH, cleared_unscheduled.
Qed.

Lemma fold_cleared_cancels ks name st h :
  name ∈ ks → pending name (self st) = Some h →
  scheduled (world (foldl (λ st k, cleared k st) st ks)) !! h = None.
Proof.
  revert st. induction ks as [| k ks IH]; intros st Hin E; simpl.
  - inversion Hin.
  - destruct (decide (k = name)) as [-> | Hne].
    + now apply fold_cleared_unscheduled, cleared_cancels.
    + apply IH.
      * apply elem_of_cons in Hin as [-> | Hin]; [congruence | exact Hin].
      * now rewrite pending_cleared_ne.
Qed.

Lemma pending_is_key name s h : pending name s = Some h → name ∈ keysOf (timers s).
Proof.
  unfold pending, keysOf. intros E. apply elem_of_elements, elem_of_dom.
  destruct (timers s !! name); [eauto | discriminate].
Qed.

Lemma not_key_idle name s : name ∉ keysOf (timers s) → pending name s = None.
Proof.
  intros Hnot. destruct (pending name s) eqn:E; [| reflexivity].
  now apply pending_is_key in E.
Qed.

(** After [flushTimers] no name holds a handle, and every handle a name
    held is gone from the runtime's table. *)
Lemma flushTimers_idle st name : pending name (self (after flushTimers st)) = None.
Proof.
  unfold after. rewrite flushTimers_runs. simpl. apply fold_cleared_idle.
  destruct (decide (name ∈ keysOf (timers (self st)))); [now left | right].
  now apply not_key_idle.
Qed.

Lemma flushTimers_cancels st name h :
  pending name (self st) = Some h → scheduled (world (after flushTimers st)) !! h = None.
Proof.
  intros E. unfold after. rewrite flushTimers_runs. simpl.
  eapply fold_cleared_cancels; [| exact E]. now apply pending_is_key in E.
Qed.

Lemma flushTimers_returns st : flushTimers st = (Return tt, after flushTimers st).
Proof. unfold after. now rewrite flushTimers_runs. Qed.

(** [flushTimers] writes the timer map and the timer table, nothing else. *)
Lemma cleared_frame timer st :
  ∃ T S, cleared timer st
         = MkState (set_timers T (self st)) (set_scheduled S (world st)).
Proof.
  unfold cleared. destruct (pending timer (self st)); [eauto |].
  exists (timers (self st)), (scheduled (world st)).
  destruct st as [[] []]; reflexivity.
Qed.

Lemma flushTimers_frame st :
  ∃ T S, after flushTimers st
         = MkState (set_timers T (self st)) (set_scheduled S (world st)).
Proof.
  unfold after. rewrite flushTimers_runs. simpl.
  generalize (keysOf (timers (self st))). intros ks.
  induction ks as [| k ks IH] using rev_ind; simpl.
  - exists (timers (self st)), (scheduled (world st)).
    destruct st as [[] []]; reflexivity.
  - rewrite foldl_app. simpl. destruct IH as (T & S & ->).
    destruct (cleared_frame k (MkState (set_timers T (self st))
                                 (set_scheduled S (world st)))) as (T' & S' & ->).
    exists T', S'. reflexivity.
Qed.

(** ** [cleanup] and [disconnect] *)

Lemma cleanup_cleans st :
  cleanup st = (Return tt, after cleanup st) ∧ cleaned st (after cleanup st).
Proof.
  pose proof (flushTimers_idle st) as Hidle.
  pose proof (flushTimers_cancels st) as Hcancel.
  destruct (flushTimers_frame st) as (T & S & E).
  assert (Hc : cleanup st
               = bind (this retryCall)
                   (λ rc : bool,
                      if rc then update (set_retryCall false)
                      else update (set_outBuffer []);;
                           r ← new_array;
                           update (set_inBuffer r);;
                           update (set_retries 0))
                   (after flushTimers st)).
  { unfold cleanup. now rewrite (bind_returns _ _ _ _ _ (flushTimers_returns st)). }
  unfold cleaned. change (after cleanup st) with (cleanup st).2.
  rewrite Hc. rewrite E in *. rewrite bind_this. simpl.
  destruct (retryCall (self st)) eqn:Hrc; simpl.
  - split; [reflexivity |].
    split; [exact Hidle |]. split; [exact Hcancel |].
    split; [discriminate |]. intros _. repeat split.
  - split; [reflexivity |].
    split; [exact Hidle |]. split; [exact Hcancel |].
    split; [intros _ | discriminate]. repeat split.
    unfold inbound. simpl. now rewrite lookup_insert_eq.
Qed.

(** With a transport, [disconnect] is [cleanup] run from a state that
    differs from the initial one in the flags and the transport only. *)
Lemma disconnect_reaches_cleanup st r :
  ws (self st) = Some r →
  ∃ st0, disconnect st = cleanup st0
         ∧ (∀ st', cleaned st0 st' → cleaned st st')
         ∧ upTime (self st0) = upTime (self st)
         ∧ active (self st0) = false
         ∧ ws (self st0) = None.
Proof.
  intros Hws. unfold disconnect. rewrite bind_this, Hws.
  rewrite !bind_update. unfold ws_close, ws_alter.
  rewrite !bind_bind, bind_env. simpl.
  destruct (ws_readyState r (world st)) as [[] |];
    rewrite ?bind_update_env, ?bind_ret, !bind_update, !bind_this; simpl;
    destruct (controller (self st)), (abortListener (self st));
    rewrite ?bind_bind, ?bind_update, ?bind_ret;
    (eexists; split; [reflexivity | split; [intros st' Hc; exact Hc | repeat split]]).
Qed.

Lemma disconnect_without_transport st :
  ws (self st) = None → disconnect st = (Return tt, st).
Proof. intros Hws. unfold disconnect. now rewrite bind_this, Hws. Qed.



(** ** Uptime *)

Lemma step_keeps_uptime v op :
  op ≠ GetUptime → (∀ r e, op ≠ Closed r e) → (∀ r e, op ≠ Errored r e) →
  preserves (λ st, upTime (self st) = v) (step op).
Proof.
  intros H1 H2 H3. destruct op; try congruence.
  all: try (exfalso; eapply H2; reflexivity).
  all: try (exfalso; eapply H3; reflexivity).
  all: clear H1 H2 H3; unfold step; frame_with keep.
Qed.

Lemma uptime_inactive st :
  active (self st) = false → uptime st = (Return (upTime (self st)), st).
Proof. intros Ha. unfold uptime. rewrite bind_this, Ha. reflexivity. Qed.

(** C4, as amended.  No disconnect resets the accumulated uptime: it is
    the same after [disconnect] as before, manual or reconnect-driven, the
    same after [cleanup], and the same after the reconnect cycle a retry
    timer runs; the getter read after a disconnect that found a transport
    returns it; and no turn other than a read of [uptime] (the getter, or
    the reconnect guard on close and error) writes it at all. *)
Theorem disconnect_keeps_uptime st :
  upTime (self (after disconnect st)) = upTime (self st)
  ∧ upTime (self (after cleanup st)) = upTime (self st)
  ∧ upTime (self (after (fire RetryFired) st)) = upTime (self st)
  ∧ (is_Some (ws (self st)) →
       (uptime (after disconnect st)).1 = Return (upTime (self st)))
  ∧ (∀ op, op ≠ GetUptime → (∀ r e, op ≠ Closed r e) → (∀ r e, op ≠ Errored r e) →
       upTime (self (after (step op) st)) = upTime (self st)).
Proof.
  assert (Hd : upTime (self (after disconnect st)) = upTime (self st)).
  { apply (step_keeps_uptime _ Disconnect); [discriminate.. | reflexivity]. }
  split; [exact Hd |]. split; [| split; [| split]].
  - assert (Hp : preserves (λ st', upTime (self st') = upTime (self st)) cleanup)
      by frame_with keep.
    now apply Hp.
  - assert (Hp : preserves (λ st', upTime (self st') = upTime (self st))
                   (fire RetryFired)) by (unfold fire; frame_with keep).
    now apply Hp.
  - intros [r Hws].
    destruct (disconnect_reaches_cleanup st r Hws) as (st0 & E & _ & _ & Hoff & _).
    assert (Hp : preserves (λ st', active (self st') = false) cleanup)
      by frame_with keep.
    assert (Ha : active (self (after disconnect st)) = false).
    { unfold after. rewrite E. now apply Hp. }
    rewrite (uptime_inactive _ Ha). simpl. now f_equal.
  - intros op H1 H2 H3. now apply (step_keeps_uptime _ op).
Qed.

(** ** The heartbeat flag *)

Lemma step_keeps_beating op :
  op ≠ StopBeat → preserves (λ st, heartBeatRunning (self st) = true) (step op).
Proof.
  intros Hop. destruct op; try congruence; clear Hop.
  all: unfold step; frame_with keep.
Qed.

Lemma run_keeps_beating ops st :
  StopBeat ∉ ops → beating st = true → beating (run ops st) = true.
Proof.
  revert st. induction ops as [| op ops IH]; intros st Hnot Hb; simpl.
  - exact Hb.
  - apply IH.
    + intros Hin. apply Hnot. now right.
    + apply (step_keeps_beating op); [| exact Hb].
      intros ->. apply Hnot. now left.
Qed.

Lemma pause_runs st :
  pause st
  = (Return tt,
     cleared "heartbeat" (cleared "ping" (MkState (set_paused true (self st)) (world st)))).
Proof. unfold pause. now rewrite bind_update, !bind_clearTimer, clearTimer_runs. Qed.

(** C10.  With a heartbeat running, [pause] leaves the [beating] getter
    true while the ping and heartbeat timers are cancelled (no handle under
    either name, and the handles they held are out of the timer table);
    [stopBeat] makes the getter false; and it is the only turn that does:
    every other operation, timer expiry or transport event leaves the getter
    true, and so does every sequence of them. *)
Theorem pause_keeps_beating st :
  beating st = true →
  beating (after pause st) = true
  ∧ pending "ping" (self (after pause st)) = None
  ∧ pending "heartbeat" (self (after pause st)) = None
  ∧ (∀ h, pending "ping" (self st) = Some h ∨ pending "heartbeat" (self st) = Some h →
          scheduled (world (after pause st)) !! h = None)
  ∧ beating (after stopBeat st) = false
  ∧ (∀ op, op ≠ StopBeat → beating (after (step op) st) = true)
  ∧ (∀ ops, StopBeat ∉ ops → beating (run ops st) = true).
Proof.
  intros Hb. split; [| split; [| split; [| split; [| split; [| split]]]]].
  - apply (step_keeps_beating Pause); [discriminate | exact Hb].
  - unfold after. rewrite pause_runs. simpl. apply idle_cleared, pending_cleared.
  - unfold after. rewrite pause_runs. simpl. apply pending_cleared.
  - intros h Hh. unfold after. rewrite pause_runs. simpl.
    destruct Hh as [Hp | Hh].
    + now apply cleared_unscheduled, cleared_cancels.
    + destruct (pending "heartbeat"
                  (self (cleared "ping" (MkState (set_paused true (self st)) (world st)))))
        as [h' |] eqn:E.
      * rewrite pending_cleared_ne in E by discriminate. simpl in E.
        change (pending "heartbeat" (self st) = Some h') in E.
        assert (h' = h) as -> by congruence.
        apply cleared_cancels. now rewrite pending_cleared_ne by discriminate.
      * rewrite pending_cleared_ne in E by discriminate. simpl in E.
        change (pending "heartbeat" (self st) = None) in E. congruence.
  - unfold after, stopBeat. now rewrite bind_clearTimer.
  - intros op Hop. now apply (step_keeps_beating op).
  - intros ops Hops. now apply run_keeps_beating.
Qed.

(** ** Observables without a transport *)

Lemma disconnect_drops_transport st : ws (self (after disconnect st)) = None.
Proof.
  destruct (ws (self st)) as [r |] eqn:Hws.
  - destruct (disconnect_reaches_cleanup st r Hws) as (st0 & E & _ & _ & _ & Hnone).
    unfold after. rewrite E.
    assert (Hp : preserves (λ st', ws (self st') = None) cleanup) by frame_with keep.
    now apply Hp.
  - unfold after. now rewrite disconnect_without_transport.
Qed.

Lemma constructed_without_transport provider options w :
  SocketConfig.immediate options = false →
  ws (self (constructor provider options w).2) = None.
Proof. intros Hi. unfold constructor. now rewrite Hi. Qed.

(** C9.  With no transport handle, [readyState] is [WebSocket.CLOSED]
    (code 3) and [extensions], [protocol] and [url] are the empty string. *)
Theorem observables_default_without_transport st :
  ws (self st) = None →
  readyState st = WebSocket.CLOSED
  ∧ WebSocket.code (readyState st) = 3
  ∧ extensions st = ""
  ∧ protocol st = ""
  ∧ url st = "".
Proof.
  intros Hws. unfold readyState, extensions, protocol, url, the_ws.
  rewrite Hws. repeat split.
Qed.

(** ** [reconnect] *)

Lemma reconnect_blocked st :
  is_Some (pending "retry" (self st))
  ∨ retries (self st) >= RetryConfig.amount (SocketConfig.retry (opts (self st))) →
  reconnect st = (Return tt, st).
Proof.
  intros Hb. unfold reconnect. rewrite bind_this. cbv beta zeta. unfold id.
  destruct Hb as [Hp | Hr].
  - now rewrite (bool_decide_eq_true_2 _ Hp).
  - assert ((retries (self st) >=? RetryConfig.amount (SocketConfig.retry (opts (self st))))
            = true) as -> by (apply Z.geb_le; lia).
    now rewrite orb_true_r.
Qed.

(** ** Timer handles *)


Lemma next_handle_new w : next_handle w ∉ issued w.
Proof.
  intros Hin. apply (is_fresh (issued w ∪ dom (scheduled w))).
  apply elem_of_union. now left.
Qed.

(** The state one effective [reconnect] leaves. *)
Lemma reconnect_eligible st :
  pending "retry" (self st) = None →
  retries (self st) < RetryConfig.amount (SocketConfig.retry (opts (self st))) →
  let h := next_handle (world st) in
  reconnect st
  = (Return tt,
     MkState
       (set_timers (<["retry" := Some h]> (timers (self st)))
          (set_retryCall true (set_retries (retries (self st) + 1) (self st))))
       (set_issued ({[h]} ∪ issued (world st))
          (set_scheduled
             (<[h := {| kind := Once; callback := RetryFired;
                        delay := retry_delay (SocketConfig.retry (opts (self st)))
                                   (retries (self st) + 1) |}]>
                (scheduled (world st)))
             (world st)))).
Proof.
  intros Hp Hr. unfold reconnect. rewrite bind_this. cbv beta zeta. unfold id.
  rewrite Hp. rewrite bool_decide_eq_false_2 by (intros [? ?]; discriminate).
  assert ((retries (self st) >=? RetryConfig.amount (SocketConfig.retry (opts (self st))))
          = false) as -> by (rewrite Z.geb_leb; apply Z.leb_gt; lia).
  cbn [orb]. rewrite bind_clearTimer.
  unfold cleared. rewrite Hp. reflexivity.
Qed.



(** ** The reconnect mark *)



(** ** [ping] *)

Lemma active_cleared timer st : active (self (cleared timer st)) = active (self st).
Proof. destruct (cleared_frame timer st) as (T & S & ->). reflexivity. Qed.

Lemma ws_cleared timer st : ws (self (cleared timer st)) = ws (self st).
Proof. destruct (cleared_frame timer st) as (T & S & ->). reflexivity. Qed.

Lemma ping_idle st :
  active (self st) = false ∨ ws (self st) = None →
  ping st = (Return tt, cleared "ping" st).
Proof.
  intros Hoff. unfold ping. rewrite bind_clearTimer, !bind_this.
  rewrite active_cleared, ws_cleared.
  destruct Hoff as [-> | ->]; [destruct (ws (self st)) |]; reflexivity.
Qed.

Lemma ping_live st r :
  active (self st) = true → ws (self st) = Some r →
  ws_readyState r (world st) = Some WebSocket.OPEN →
  ∃ T S x,
    sockets (world st) !! r = Some x
    ∧ cleared "ping" st = MkState (set_timers T (self st)) (set_scheduled S (world st))
    ∧ ping st
      = (Return tt,
         let h := fresh (issued (world st) ∪ dom S) in
         MkState
           (set_timers (<["ping" := Some h]> T) (set_pingStart true (self st)))
           (set_issued ({[h]} ∪ issued (world st))
              (set_scheduled
                 (<[h := {| kind := Once; callback := PingTimedOut;
                            delay := PingConfig.timeout
                                       (SocketConfig.ping (opts (self st))) |}]> S)
                 (set_sockets
                    (alter (λ x, WebSocket.set_sent (WebSocket.sent x ++ [PingContent]) x) r
                       (sockets (world st)))
                    (set_emitted (emitted (world st) ++ [(SocketEvent.ping, undefined)])
                       (world st)))))).
Proof.
  intros Ha Hws Hopen.
  destruct (cleared_frame "ping" st) as (T & S & E).
  pose proof Hopen as Hx. unfold ws_readyState in Hx.
  destruct (sockets (world st) !! r) as [x |] eqn:Hsock; [| discriminate].
  exists T, S, x. split; [reflexivity |]. split; [exact E |].
  unfold ping. rewrite bind_clearTimer, !bind_this.
  rewrite active_cleared, ws_cleared, Ha, Hws, E. unfold when.
  rewrite bind_update. unfold emit. rewrite bind_update_env.
  unfold ws_send. rewrite bind_bind, bind_env.
  cbn [self world]. 
  replace (ws_readyState r _) with (Some WebSocket.OPEN)
    by (rewrite <- Hopen; reflexivity).
  unfold ws_alter. rewrite bind_update_env, bind_this.
  unfold setTimeout, schedule, set_timer. exec. reflexivity.
Qed.

(** C5, as amended.  [ping] acts only on an active connection (the
    connected flag set, not paused) that has a transport.  In any other
    state it returns having emitted nothing, sent nothing and armed nothing,
    [#pingStart] unchanged; all it does is cancel a pending ping timer.  On
    an active connection whose transport is open it emits [ping], puts the
    ping payload on the wire, sets [#pingStart] and arms a single-shot
    timeout, and it does so whether or not a previous ping is still
    awaiting its pong: nothing is assumed of [#pingStart] or of the timer
    under ["ping"].  The timeout of that previous ping is cancelled and
    replaced: the timer table afterwards is the one [clearTimer('ping')]
    leaves, with the timer of the slot's handle removed, plus the new
    timeout under a handle never handed out before; so the handle the slot
    held, which the runtime once handed out, names no timer any more. *)
Theorem ping_acts_when_active st :
  (active (self st) = false ∨ ws (self st) = None →
   let st' := after ping st in
   ping st = (Return tt, cleared "ping" st)
   ∧ emitted (world st') = emitted (world st)
   ∧ sockets (world st') = sockets (world st)
   ∧ pingStart (self st') = pingStart (self st)
   ∧ (∀ h, scheduled (world st) !! h = None → scheduled (world st') !! h = None))
  ∧ (∀ r, active (self st) = true → ws (self st) = Some r →
          ws_readyState r (world st) = Some WebSocket.OPEN →
     let st' := after ping st in
     (ping st).1 = Return tt
     ∧ emitted (world st') = emitted (world st) ++ [(SocketEvent.ping, undefined)]
     ∧ transmitted r st' = transmitted r st ++ [PingContent]
     ∧ pingStart (self st') = true
     ∧ ∃ h, pending "ping" (self st') = Some h
            ∧ scheduled (world st') !! h
              = Some {| kind := Once; callback := PingTimedOut;
                        delay := PingConfig.timeout (SocketConfig.ping (opts (self st))) |}
            ∧ (h ∉ issued (world st))
            ∧ scheduled (world st')
              = <[h := {| kind := Once; callback := PingTimedOut;
                          delay := PingConfig.timeout
                                     (SocketConfig.ping (opts (self st))) |}]>
                  (match pending "ping" (self st) with
                   | Some h0 => delete h0 (scheduled (world st))
                   | None => scheduled (world st)
                   end)
            ∧ ∀ h0, pending "ping" (self st) = Some h0 → h0 ∈ issued (world st) →
                    h0 ≠ h ∧ scheduled (world st') !! h0 = None).
Proof.
  split.
  - intros Hoff. cbv zeta. unfold after. rewrite (ping_idle st Hoff). simpl.
    split; [reflexivity |].
    destruct (cleared_frame "ping" st) as (T & S & E).
    rewrite E. simpl. repeat split.
    intros h Hh. pose proof (cleared_unscheduled "ping" st h Hh) as Hc.
    now rewrite E in Hc.
  - intros r Ha Hws Hopen.
    destruct (ping_live st r Ha Hws Hopen) as (T & S & x & Hx & Hcl & E).
    cbv zeta in *. unfold after. rewrite E. simpl.
    split; [reflexivity |]. split; [reflexivity |]. split; [| split; [reflexivity |]].
    + unfold transmitted. simpl. rewrite lookup_alter_eq, Hx. reflexivity.
    + set (h := fresh (issued (world st) ∪ dom S)).
      assert (Hnew : h ∉ issued (world st)).
      { intros Hin. apply (is_fresh (issued (world st) ∪ dom S)).
        apply elem_of_union. now left. }
      assert (HS : S = match pending "ping" (self st) with
                       | Some h0 => delete h0 (scheduled (world st))
                       | None => scheduled (world st)
                       end).
      { unfold cleared in Hcl. destruct (pending "ping" (self st)).
        - now inversion Hcl.
        - rewrite Hcl. reflexivity. }
      exists h. split; [unfold pending; simpl; now rewrite !lookup_insert_eq |].
      split; [now rewrite lookup_insert_eq |]. split; [exact Hnew |].
      split; [now rewrite <- HS |].
      intros h0 Hp0 Hin0.
      assert (Hne : h0 ≠ h) by (intros ->; contradiction).
      split; [exact Hne |].
      rewrite lookup_insert_ne by congruence.
      rewrite HS, Hp0. apply lookup_delete_eq.
Qed.

(** ** The outbound queue *)

Ltac keep_bounded :=
  let HP := fresh in
  intros HP; first [exact HP | destruct HP; split; [assumption | unfold len in *; simpl; lia]].

Lemma send_queues st data parser :
  readyState st ≠ WebSocket.OPEN ∨ paused (self st) = true →
  send data parser st
  = (Return tt,
     match SocketConfig.buffer (opts (self st)) with
     | Some b =>
         if truthy data && (len (outBuffer (self st)) <? BufferConfig.max b)
         then MkState (set_outBuffer (outBuffer (self st) ++ [data]) (self st)) (world st)
         else st
     | None => st
     end).
Proof.
  intros Hoff. unfold send. exec.
  assert ((bool_decide (ws (self st) ≫= (λ r, ws_readyState r (world st))
                        = Some WebSocket.OPEN) && negb (paused (self st))) = false) as ->.
  { destruct Hoff as [Hrs | ->]; [| apply andb_false_r].
    apply andb_false_iff. left. apply bool_decide_eq_false_2. intros E. apply Hrs.
    unfold readyState, the_ws, ws_readyState in *.
    destruct (ws (self st)) as [r |]; [| discriminate]. simpl in *.
    destruct (sockets (world st) !! r); [| discriminate]. simpl in *. congruence. }
  destruct (SocketConfig.buffer (opts (self st))) as [b |]; [| reflexivity].
  destruct (truthy data && (len (outBuffer (self st)) <? BufferConfig.max b));
    reflexivity.
Qed.

Lemma send_keeps_bounded b data parser : preserves (bounded b) (send data parser).
Proof.
  intros st HP. unfold after, send. exec.
  destruct (bool_decide _ && negb _).
  - assert (Hp : preserves (bounded b)
                   (update (set_parser parser);;
                    try_catch
                      (syncOutBuffer;;
                       when (truthy data)
                         (frame ← call (parser data);
                          match ws (self st) with
                          | Some r => ws_send r frame
                          | None => throw TypeError_undefined
                          end;;
                          emit SocketEvent.send undefined))
                      (λ err, abort (Failure {| message := "Error sending message: "
                                                            +:+ message err |}))))
      by frame_with keep_bounded.
    apply Hp, HP.
  - destruct HP as [Hb Hl]. rewrite Hb.
    destruct (truthy data && (len (outBuffer (self st)) <? BufferConfig.max b)) eqn:E;
      simpl; [| now split].
    apply andb_true_iff in E as [_ E]. apply Z.ltb_lt in E.
    split; [exact Hb |]. simpl. unfold len in *. rewrite length_app. simpl. lia.
Qed.

#[local] Hint Resolve send_keeps_bounded : frame.

Lemma step_keeps_bounded b op : preserves (bounded b) (step op).
Proof. destruct op; unfold step; frame_with keep_bounded. Qed.

Lemma run_keeps_bounded b ops st : bounded b st → bounded b (run ops st).
Proof.
  revert st. induction ops as [| op ops IH]; intros st HP; simpl; [exact HP |].
  apply IH. now apply (step_keeps_bounded b op).
Qed.

(** Sends while nothing can be transmitted fill the queue up to its
    capacity, oldest first. *)
Lemma sends_fill_queue b items st :
  SocketConfig.buffer (opts (self st)) = Some b →
  readyState st ≠ WebSocket.OPEN ∨ paused (self st) = true →
  len (outBuffer (self st)) ≤ BufferConfig.max b →
  Forall (λ i, truthy i = true) items →
  run (map (λ i, Send i None) items) st
  = MkState
      (set_outBuffer (take (Z.to_nat (BufferConfig.max b)) (outBuffer (self st) ++ items))
         (self st))
      (world st).
Proof.
  intros Hb Hoff Hl Hitems. revert st Hb Hoff Hl.
  induction Hitems as [| i items Hi _ IH]; intros st Hb Hoff Hl.
  - simpl. rewrite app_nil_r, take_ge by (unfold len in Hl; lia).
    destruct st as [[] ?]; reflexivity.
  - cbn [map run foldl]. change (foldl _ ?s ?l) with (run l s).
    unfold step. rewrite (send_queues st i _ Hoff), Hb, Hi. cbn [snd andb].
    destruct (len (outBuffer (self st)) <? BufferConfig.max b) eqn:E.
    + apply Z.ltb_lt in E. rewrite IH.
      * simpl. now rewrite <- app_assoc.
      * exact Hb.
      * exact Hoff.
      * simpl. unfold len in *. rewrite length_app. simpl. lia.
    + apply Z.ltb_ge in E. rewrite (IH st Hb Hoff Hl).
      rewrite !take_app_le by (unfold len in *; lia). reflexivity.
Qed.

(** The loop of [syncOutBuffer] on an open transport with a parser that
    returns: every item goes on the wire, in order. *)
Lemma drain_transmits r (enc : Out → OutData) items st :
  ws_readyState r (world st) = Some WebSocket.OPEN →
  Forall (λ i, parser (self st) i = Return (enc i)) items →
  ∃ st', for_of items
           (λ x, p ← this parser; frame ← call (p x); ws_send r frame;;
                 emit SocketEvent.send undefined) st
         = (Return tt, st')
         ∧ self st' = self st
         ∧ transmitted r st' = transmitted r st ++ map enc items
         ∧ emitted (world st')
           = emitted (world st) ++ replicate (length items) (SocketEvent.send, undefined).
Proof.
  intros Hopen Hitems. remember (parser (self st)) as p eqn:Hp.
  revert st Hopen Hp.
  induction Hitems as [| i items Hi _ IH]; intros st Hopen Hp.
  - exists st. simpl. rewrite !app_nil_r. repeat split.
  - cbn [for_of]. exec. rewrite <- Hp, Hi. cbn [call]. exec.
    unfold ws_send. exec. rewrite Hopen. unfold ws_alter, emit. exec.
    match goal with |- context [for_of _ _ ?s] => set (st1 := s) end.
    destruct (IH st1) as (st' & E & Hself & Hsent & Hev).
    + unfold ws_readyState in *. subst st1. simpl. rewrite lookup_alter_eq.
      destruct (sockets (world st) !! r); [exact Hopen | discriminate].
    + exact Hp.
    + exists st'. split; [exact E |]. rewrite Hself, Hsent, Hev. subst st1. simpl.
      repeat split.
      * unfold transmitted. simpl. rewrite lookup_alter_eq.
        unfold ws_readyState in Hopen.
        destruct (sockets (world st) !! r); [| discriminate]. simpl.
        now rewrite <- app_assoc.
      * now rewrite <- app_assoc.
Qed.

(** [resume] on an open transport with nothing buffered inbound: the
    whole queue, when it is within capacity and meets the release threshold,
    is transmitted and the queue is left empty. *)
Lemma resume_drains r b (enc : Out → OutData) st :
  paused (self st) = true →
  ws (self st) = Some r →
  ws_readyState r (world st) = Some WebSocket.OPEN →
  SocketConfig.buffer (opts (self st)) = Some b →
  inbound st = [] →
  outBuffer (self st) ≠ [] →
  BufferConfig.min b ≤ len (outBuffer (self st)) ≤ BufferConfig.max b →
  Forall (λ i, parser (self st) i = Return (enc i)) (outBuffer (self st)) →
  (resume st).1 = Return tt
  ∧ transmitted r (after resume st) = transmitted r st ++ map enc (outBuffer (self st))
  ∧ outBuffer (self (after resume st)) = []
  ∧ paused (self (after resume st)) = false.
Proof.
  intros Hp Hws Hopen Hb Hin Hne [Hmin Hmax] Hparse.
  unfold after, resume. exec. rewrite Hp. cbn [when].
  unfold sync, syncInBuffer, read_array. exec. rewrite Hb.
  fold (inbound st). rewrite Hin.
  change (negb (len (@nil MessageEvent) =? 0)) with false. cbn [andb when]. exec.
  unfold syncOutBuffer. exec. rewrite Hws. exec. rewrite Hb.
  assert ((negb (len (outBuffer (self st)) =? 0)
           && (len (outBuffer (self st)) >=? BufferConfig.min b)) = true) as ->.
  { apply andb_true_iff. split.
    - apply negb_true_iff, Z.eqb_neq. unfold len.
      destruct (outBuffer (self st)); [congruence | simpl; lia].
    - rewrite Z.geb_leb. now apply Z.leb_le. }
  cbn [when]. exec.
  rewrite Z.min_r by exact Hmax.
  replace (Z.to_nat (len (outBuffer (self st)))) with (length (outBuffer (self st)))
    by (unfold len; lia).
  rewrite firstn_all.
  destruct (drain_transmits r enc (outBuffer (self st)) st Hopen Hparse)
    as (st' & E & Hself & Hsent & _).
  rewrite (bind_returns _ _ _ _ _ E). unfold Date_now. exec. simpl.
  repeat split. unfold transmitted in *. simpl. exact Hsent.
Qed.

(** C8.  With buffering configured: (1) a queue within capacity stays
    within capacity through every sequence of turns, sends included;
    (2) while the transport is absent, not open, or the socket is paused,
    [send] returns without an event, appends a truthy payload at the end of
    the queue when the queue is below capacity, and otherwise leaves the
    state as it is, the queue and its oldest items included; (3) payloads
    sent into an empty queue of a paused socket and released by [resume] on
    an open transport are transmitted in order up to the capacity: the first
    [max] of them, none of the later ones. *)
Theorem outbound_queue_bounded st b :
  SocketConfig.buffer (opts (self st)) = Some b →
  (len (outBuffer (self st)) ≤ BufferConfig.max b →
   ∀ ops, len (outBuffer (self (run ops st))) ≤ BufferConfig.max b)
  ∧ (readyState st ≠ WebSocket.OPEN ∨ paused (self st) = true →
     ∀ data parser,
       (send data parser st).1 = Return tt
       ∧ (truthy data = true → len (outBuffer (self st)) < BufferConfig.max b →
          after (send data parser) st
          = MkState (set_outBuffer (outBuffer (self st) ++ [data]) (self st)) (world st))
       ∧ (truthy data = false ∨ BufferConfig.max b ≤ len (outBuffer (self st)) →
          after (send data parser) st = st))
  ∧ (∀ r items (enc : Out → OutData),
       paused (self st) = true →
       ws (self st) = Some r →
       ws_readyState r (world st) = Some WebSocket.OPEN →
       outBuffer (self st) = [] →
       inbound st = [] →
       Forall (λ i, truthy i = true ∧ parser (self st) i = Return (enc i)) items →
       let queued := take (Z.to_nat (BufferConfig.max b)) items in
       queued ≠ [] →
       BufferConfig.min b ≤ len queued →
       let st' := run (map (λ i, Send i None) items ++ [Resume]) st in
       transmitted r st' = transmitted r st ++ map enc queued
       ∧ outBuffer (self st') = []).
Proof.
  intros Hb. split; [| split].
  - intros Hl ops. now apply (run_keeps_bounded b ops st).
  - intros Hoff data parser. unfold after. rewrite (send_queues st data parser Hoff), Hb.
    split; [reflexivity |]. split.
    + intros -> Hlt. apply Z.ltb_lt in Hlt. now rewrite Hlt.
    + intros [-> | Hge]; [reflexivity |]. apply Z.ltb_ge in Hge. rewrite Hge.
      now rewrite andb_false_r.
  - intros r items enc Hp Hws Hopen Hout Hin Hitems queued Hne Hmin st'.
    assert (Hpos : 0 ≤ BufferConfig.max b).
    { destruct (Z_le_gt_dec 0 (BufferConfig.max b)) as [Hpos | Hneg]; [exact Hpos |].
      exfalso. apply Hne. subst queued.
      replace (Z.to_nat (BufferConfig.max b)) with 0%nat by lia. reflexivity. }
    assert (Hfill : run (map (λ i, Send i None) items) st
                    = MkState (set_outBuffer queued (self st)) (world st)).
    { rewrite (sends_fill_queue b); [now rewrite Hout | exact Hb | now right | |].
      - now rewrite Hout.
      - eapply Forall_impl; [exact Hitems |]. now intros i [Hi _]. }
    subst st'. unfold run. rewrite foldl_app. fold (run (map (λ i, Send i None) items) st).
    rewrite Hfill. cbn [foldl]. unfold step.
    destruct (resume_drains r b enc (MkState (set_outBuffer queued (self st)) (world st)))
      as (_ & Hsent & Hempty & _); try assumption.
    + simpl. split; [exact Hmin |]. subst queued. unfold len. rewrite length_take. lia.
    + simpl. subst queued. apply Forall_take.
      eapply Forall_impl; [exact Hitems |]. now intros i [_ Hi].
    + fold (after resume (MkState (set_outBuffer queued (self st)) (world st))).
      split; [exact Hsent | exact Hempty].
Qed.

(** ** [abort] *)

Lemma ws_close_runs r st :
  ∃ st', ws_close r st = (Return tt, st')
         ∧ self st' = self st
         ∧ emitted (world st') = emitted (world st)
         ∧ ∀ r', transmitted r' st' = transmitted r' st.
Proof.
  unfold ws_close. exec.
  destruct (ws_readyState r (world st)) as [[] |]; try (exists st; now repeat split).
  all: unfold ws_alter, update_env; eexists; split; [reflexivity |]; simpl.
  all: repeat split; intros r'; unfold transmitted; simpl.
  all: destruct (decide (r = r')) as [-> | Hne];
    [rewrite lookup_alter_eq | now rewrite lookup_alter_ne].
  all: destruct (sockets (world st) !! r'); reflexivity.
Qed.

Lemma closing_runs rs st :
  ∃ st', for_of rs ws_close st = (Return tt, st')
         ∧ self st' = self st
         ∧ emitted (world st') = emitted (world st)
         ∧ ∀ r', transmitted r' st' = transmitted r' st.
Proof.
  revert st. induction rs as [| r rs IH]; intros st; cbn [for_of].
  - exists st. now repeat split.
  - destruct (ws_close_runs r st) as (st1 & E1 & Hs1 & He1 & Ht1).
    rewrite (bind_returns _ _ _ _ _ E1).
    destruct (IH st1) as (st' & E & Hs & He & Ht).
    exists st'. split; [exact E |]. rewrite Hs, He, Hs1, He1. repeat split.
    intros r'. now rewrite Ht, Ht1.
Qed.

(** Without [onAbort], [abort] always signals: whatever the state, paused
    or not, with or without a transport or a controller, exactly one event
    is emitted, and nothing is put on any wire. *)
Lemma abort_signals st reason :
  RetryConfig.onAbort (SocketConfig.retry (opts (self st))) = false →
  (abort reason st).1 = Return tt
  ∧ emitted (world (after (abort reason) st))
    = emitted (world st)
      ++ [(if isError reason then SocketEvent.error else SocketEvent.abort,
           ErrorData (match reason with Failure e => e | _ => newError reason end))]
  ∧ ∀ r, transmitted r (after (abort reason) st) = transmitted r st.
Proof.
  intros Hoff. unfold after, abort. exec.
  assert (Hc : ∃ st', match controller (self st) with
                      | Some ctl => controller_abort ctl
                      | None => ret tt
                      end st = (Return tt, st')
                      ∧ opts (self st') = opts (self st)
                      ∧ emitted (world st') = emitted (world st)
                      ∧ ∀ r', transmitted r' st' = transmitted r' st).
  { destruct (controller (self st)) as [ctl |]; [| exists st; now repeat split].
    unfold controller_abort. destruct (aborted ctl); [exists st; now repeat split |].
    exec.
    match goal with |- context [for_of _ _ ?s] => set (st1 := s) end.
    destruct (closing_runs (listeners ctl) st1) as (st' & E & Hs & He & Ht).
    exists st'. split; [exact E |]. rewrite Hs, He. repeat split. exact Ht. }
  destruct Hc as (st' & E & Ho & He & Ht).
  rewrite (bind_returns _ _ _ _ _ E). exec. rewrite Ho, Hoff. unfold emit, update_env.
  simpl. rewrite He. repeat split. intros r. now rewrite <- Ht.
Qed.

(** The call [abort(reason, payload)] of the published declaration puts
    nothing on the wire, with or without [onAbort]. *)
Lemma abort_sends_nothing st reason payload r :
  transmitted r (after (step (Abort reason payload)) st) = transmitted r st.
Proof.
  assert (Hp : preserves (λ st', ∀ r', transmitted r' st' = transmitted r' st)
                 (step (Abort reason payload))).
  { unfold step. frame_with ltac:(
      let HP := fresh in
      intros HP; first
        [ exact HP
        | let r' := fresh in
          let Hne := fresh in
          intros r'; rewrite <- (HP r'); unfold transmitted; simpl;
          match goal with
          | |- context [alter _ ?a _ !! _] =>
              destruct (decide (a = r')) as [-> | Hne];
              [ rewrite lookup_alter_eq;
                match goal with |- context [?m !! r'] => destruct (m !! r') end;
                reflexivity
              | now rewrite lookup_alter_ne ]
          end ]). }
  now apply Hp.
Qed.


(** * Further properties of the code *)

(** ** Computations that return

    Where nothing throws outside a [try] and every handler of a [try]
    returns, the computation returns. *)

Lemma unfailing_ret {A} (a : A) : unfailing (ret a).
Proof. intros st. now exists a. Qed.

Lemma unfailing_bind {A B} (m : M A) (k : A → M B) :
  unfailing m → (∀ a, unfailing (k a)) → unfailing (bind m k).
Proof.
  intros Hm Hk st. destruct (Hm st) as [a Ha]. unfold bind.
  destruct (m st) as [[a' | e] st'] eqn:E; simpl in Ha; [| discriminate].
  apply Hk.
Qed.

Lemma unfailing_try_catch {A} (m : M A) (h : Error → M A) :
  (∀ e, unfailing (h e)) → unfailing (try_catch m h).
Proof.
  intros Hh st. unfold try_catch. destruct (m st) as [[a | e] st'].
  - now exists a.
  - apply Hh.
Qed.

Lemma unfailing_when b (m : M unit) : unfailing m → unfailing (when b m).
Proof. destruct b; [trivial | intros _; apply unfailing_ret]. Qed.

Lemma unfailing_for_of {A} (xs : list A) (body : A → M unit) :
  (∀ x, unfailing (body x)) → unfailing (for_of xs body).
Proof.
  intros Hb. induction xs as [| x xs IH]; simpl.
  - apply unfailing_ret.
  - apply unfailing_bind; [apply Hb | intros _; exact IH].
Qed.

Lemma unfailing_this {A} (f : Socket → A) : unfailing (this f).
Proof. intros st. now eexists. Qed.

Lemma unfailing_env {A} (f : World → A) : unfailing (env f).
Proof. intros st. now eexists. Qed.

Lemma unfailing_update f : unfailing (update f).
Proof. intros st. now exists tt. Qed.

Lemma unfailing_update_env f : unfailing (update_env f).
Proof. intros st. now exists tt. Qed.

(** Descend through a computation that has no [throw] and no call of a
    user function outside a [try]. *)
Ltac safe :=
  lazymatch goal with
  | |- unfailing (bind _ _) => apply unfailing_bind; [| intros ?]; safe
  | |- unfailing (try_catch _ _) => apply unfailing_try_catch; intros ?; safe
  | |- unfailing (when _ _) => apply unfailing_when; safe
  | |- unfailing (for_of _ _) => apply unfailing_for_of; intros ?; safe
  | |- unfailing (ret _) => apply unfailing_ret
  | |- unfailing (this _) => apply unfailing_this
  | |- unfailing (env _) => apply unfailing_env
  | |- unfailing (update _) => apply unfailing_update
  | |- unfailing (update_env _) => apply unfailing_update_env
  | |- unfailing (match ?x with _ => _ end) => destruct x; safe
  | |- unfailing (let _ := _ in _) => cbv zeta; safe
  | |- unfailing ?m => let h := head_of m in unfold h; safe
  end.

Lemma unfailing_unit (m : M unit) st : unfailing m → m st = (Return tt, after m st).
Proof.
  intros Hm. destruct (Hm st) as [[] Ha]. unfold after.
  destruct (m st) as [o st']. simpl in *. now subst.
Qed.

Lemma disconnect_unfailing : unfailing disconnect.
Proof. safe. Qed.

Lemma connect_unfailing : unfailing connect.
Proof. safe. Qed.

(** ** [disconnect] and [connect] compose *)

(** X2.  [disconnect] is idempotent: a second call finds no transport
    and changes nothing. *)
Theorem disconnect_twice st :
  disconnect (after disconnect st) = (Return tt, after disconnect st).
Proof. apply disconnect_without_transport, disconnect_drops_transport. Qed.

Lemma connect_without_transport st :
  ws (self st) = None →
  connect st
  = (emit SocketEvent.preConnect undefined;;
     try_catch
       (u ← provideUrl;
        ps ← this protocols;
        r ← WebSocket_new u ps;
        update (set_ws (Some r));;
        update (set_controller (Some {| aborted := false; listeners := [] |}));;
        update (set_abortListener (Some r));;
        update (set_controller (Some {| aborted := false; listeners := [r] |}));;
        s ← this id;
        ws_alter (WebSocket.set_handlers (openCallback s) (closeCallback s)
                    (errCallback s) (msgCallback s)) r;;
        ws_alter (WebSocket.set_binaryType (binary s)) r;;
        update (set_closeCall false);;
        update (set_disconnectCall false))
       (λ err,
          abort (Failure {| message := "Error when trying to connect to server: "
                                        +:+ message err |}))) st.
Proof. intros Hws. unfold connect. rewrite bind_this, Hws. reflexivity. Qed.

(** X3.  [connect] is [disconnect] followed by [connect]: on a socket
    that has a transport the old one goes through [disconnect] first, and
    on a socket without a transport that [disconnect] changes nothing. *)
Theorem connect_disconnects_first st :
  connect st = connect (after disconnect st)
  ∧ (ws (self st) = None → after disconnect st = st).
Proof.
  split.
  - destruct (ws (self st)) as [r |] eqn:Hws.
    + rewrite (connect_without_transport (after disconnect st))
        by apply disconnect_drops_transport.
      unfold connect at 1. rewrite bind_this, Hws.
      change (bool_decide (is_Some (Some r))) with true. cbn [when].
      now rewrite (bind_returns _ _ _ _ _ (unfailing_unit _ st disconnect_unfailing)).
    + unfold after. now rewrite disconnect_without_transport.
  - intros Hws. unfold after. now rewrite disconnect_without_transport.
Qed.

Lemma try_catch_throws {A} (m : M A) (h : Error → M A) st e st' :
  m st = (Throw e, st') → try_catch m h st = h e st'.
Proof. intros E. unfold try_catch. now rewrite E. Qed.

Lemma try_catch_returns {A} (m : M A) (h : Error → M A) st a st' :
  m st = (Return a, st') → try_catch m h st = (Return a, st').
Proof. intros E. unfold try_catch. now rewrite E. Qed.

(** Resolving the address and constructing the transport, when either
    fails: the exception comes out with no transport made. *)
Lemma construction_fails {A} (k : SocketRef → M A) st e :
  attempted (self st) = Throw e →
  ∃ st', (u ← provideUrl; ps ← this protocols; r ← WebSocket_new u ps; k r) st
         = (Throw e, st')
         ∧ opts (self st') = opts (self st)
         ∧ ws (self st') = ws (self st)
         ∧ world st' = world st.
Proof.
  unfold attempted, resolved, provideUrl. intros Hatt. exec. unfold id.
  destruct (urlProvider (self st)) as [u | f].
  - exec. unfold WebSocket_new. destruct (rejects u) as [e' |]; [| discriminate].
    injection Hatt as ->. eexists. split; [reflexivity |]. now repeat split.
  - destruct (f (retries (self st)) (prevUrl (self st))) as [u | e'].
    + cbn [call]. exec. unfold WebSocket_new.
      destruct (rejects u) as [e'' |]; [| discriminate].
      injection Hatt as ->. eexists. split; [reflexivity |]. now repeat split.
    + injection Hatt as ->. cbn [call]. exists st. now repeat split.
Qed.

(** X4.  A [connect] whose address provider throws, or whose address the
    transport constructor rejects, does not throw: with [onAbort] unset it
    emits [preConnect], then [error] with the exception's message behind
    ["Error when trying to connect to server: "], and the socket is left
    without a transport. *)
Theorem connect_reports_bad_address st e :
  ws (self st) = None →
  RetryConfig.onAbort (SocketConfig.retry (opts (self st))) = false →
  attempted (self st) = Throw e →
  (connect st).1 = Return tt
  ∧ emitted (world (after connect st))
    = emitted (world st)
      ++ [(SocketEvent.preConnect, undefined);
          (SocketEvent.error,
           ErrorData {| message := "Error when trying to connect to server: "
                                    +:+ message e |})]
  ∧ ws (self (after connect st)) = None.
Proof.
  intros Hws Hoff Hatt. unfold after. rewrite (connect_without_transport st Hws).
  unfold emit. rewrite bind_update_env.
  set (st1 := MkState (self st) _).
  match goal with
  | |- context [try_catch (bind provideUrl (λ u, bind _ (λ ps, bind _ ?k))) _ _] =>
      destruct (construction_fails k st1 e Hatt) as (st2 & E & Ho & Hw & Hworld)
  end.
  rewrite (try_catch_throws _ _ _ _ _ E). cbv beta.
  destruct (abort_signals st2
              (Failure {| message := "Error when trying to connect to server: "
                                      +:+ message e |})) as (Hr & He & _).
  { now rewrite Ho. }
  split; [exact Hr |]. unfold after in He. rewrite He, Hworld. subst st1. simpl.
  split; [now rewrite <- app_assoc |].
  assert (Hp : preserves (λ st', ws (self st') = None)
                 (abort (Failure {| message := "Error when trying to connect to server: "
                                                +:+ message e |})))
    by frame_with keep.
  apply Hp. now rewrite Hw.
Qed.

Lemma provideUrl_resolves st u :
  resolved (self st) = Return u →
  provideUrl st = (Return u, MkState (set_prevUrl (Some u) (self st)) (world st)).
Proof.
  unfold resolved, provideUrl. intros Hres. exec. unfold id.
  destruct (urlProvider (self st)) as [u' | f].
  - now injection Hres as ->.
  - rewrite Hres. reflexivity.
Qed.

Lemma attempted_returns s u :
  attempted s = Return u → resolved s = Return u ∧ rejects u = None.
Proof.
  unfold attempted. destruct (resolved s) as [u' | e]; [| discriminate].
  destruct (rejects u') eqn:E; [discriminate |]. intros [= ->]. now split.
Qed.

(** The state a successful [connect] leaves, from a socket without a
    transport. *)
Lemma connect_succeeds st u :
  ws (self st) = None →
  attempted (self st) = Return u →
  let r := fresh (dom (sockets (world st))) in
  connect st
  = (Return tt,
     MkState
       (set_disconnectCall false
          (set_closeCall false
             (set_controller (Some {| aborted := false; listeners := [r] |})
                (set_abortListener (Some r)
                   (set_ws (Some r) (set_prevUrl (Some u) (self st)))))))
       (set_sockets
          (<[r := {| WebSocket.readyState := WebSocket.CONNECTING;
                     WebSocket.url := u;
                     WebSocket.protocol := "";
                     WebSocket.extensions := "";
                     WebSocket.binaryType := binary (self st);
                     WebSocket.onopen := openCallback (self st);
                     WebSocket.onclose := closeCallback (self st);
                     WebSocket.onerror := errCallback (self st);
                     WebSocket.onmessage := msgCallback (self st);
                     WebSocket.sent := [] |}]> (sockets (world st)))
          (set_emitted (emitted (world st) ++ [(SocketEvent.preConnect, undefined)])
             (world st)))).
Proof.
  intros Hws Hatt r. apply attempted_returns in Hatt as [Hres Hrej].
  rewrite (connect_without_transport st Hws).
  unfold emit. rewrite bind_update_env.
  apply try_catch_returns.
  erewrite (bind_returns _ _ _ _ _ (provideUrl_resolves (MkState (self st) _) u Hres)).
  exec.
  unfold WebSocket_new. rewrite Hrej. exec. unfold ws_alter. exec. unfold id.
  cbn [self world]. simpl. rewrite !alter_insert_eq. reflexivity.
Qed.

(** X5.  From a socket without a transport, a [connect] whose address
    resolves and is accepted emits [preConnect] and installs a transport
    that did not exist before: it is [CONNECTING] on the resolved address,
    carries the socket's binary type and the four handlers current at that
    moment, and has sent nothing.  The address is cached as the previous
    one, a fresh controller listens for this transport alone, the close and
    manual-disconnect marks are cleared, and no other transport is
    touched. *)
Theorem connect_opens_transport st u :
  ws (self st) = None →
  attempted (self st) = Return u →
  let r := fresh (dom (sockets (world st))) in
  let st' := after connect st in
  (connect st).1 = Return tt
  ∧ sockets (world st) !! r = None
  ∧ ws (self st') = Some r
  ∧ the_ws st'
    = Some {| WebSocket.readyState := WebSocket.CONNECTING;
              WebSocket.url := u;
              WebSocket.protocol := "";
              WebSocket.extensions := "";
              WebSocket.binaryType := binary (self st);
              WebSocket.onopen := openCallback (self st);
              WebSocket.onclose := closeCallback (self st);
              WebSocket.onerror := errCallback (self st);
              WebSocket.onmessage := msgCallback (self st);
              WebSocket.sent := [] |}
  ∧ (∀ r', r' ≠ r → sockets (world st') !! r' = sockets (world st) !! r')
  ∧ emitted (world st') = emitted (world st) ++ [(SocketEvent.preConnect, undefined)]
  ∧ prevUrl (self st') = Some u
  ∧ controller (self st') = Some {| aborted := false; listeners := [r] |}
  ∧ closeCall (self st') = false
  ∧ disconnectCall (self st') = false.
Proof.
  intros Hws Hatt r st'. subst st'. unfold after.
  rewrite (connect_succeeds st u Hws Hatt). fold r. cbn [fst snd].
  split; [reflexivity |]. split; [apply not_elem_of_dom, is_fresh |].
  split; [reflexivity |]. split.
  { unfold the_ws. cbn [self world ws set_disconnectCall set_closeCall set_controller
                          set_abortListener set_ws]. simpl. now rewrite lookup_insert_eq. }
  split.
  { intros r' Hne. simpl. now rewrite lookup_insert_ne. }
  repeat split.
Qed.

(** ** [send] with a failing parser *)

(** X6.  On an open, unpaused socket with an empty queue, a truthy
    payload whose parser throws is not transmitted and not queued; with
    [onAbort] unset the call returns having emitted [error] with the
    exception's message behind ["Error sending message: "]. *)
Theorem send_reports_parser_failure st r data parser e :
  ws (self st) = Some r →
  ws_readyState r (world st) = Some WebSocket.OPEN →
  paused (self st) = false →
  outBuffer (self st) = [] →
  RetryConfig.onAbort (SocketConfig.retry (opts (self st))) = false →
  truthy data = true →
  parser data = Throw e →
  let st' := after (send data parser) st in
  (send data parser st).1 = Return tt
  ∧ emitted (world st')
    = emitted (world st)
      ++ [(SocketEvent.error,
           ErrorData {| message := "Error sending message: " +:+ message e |})]
  ∧ outBuffer (self st') = []
  ∧ (∀ r', transmitted r' st' = transmitted r' st).
Proof.
  intros Hws Hopen Hp Hout Hoff Htruthy Hparse st'. subst st'. unfold after, send.
  exec. rewrite Hws. cbn [mbind option_bind]. rewrite Hopen, Hp.
  rewrite bool_decide_eq_true_2 by reflexivity. cbn [negb andb]. exec.
  set (st1 := MkState (set_parser parser (self st)) (world st)).
  assert (Htry : (syncOutBuffer;;
                  when (truthy data)
                    (frame ← call (parser data);
                     match Some r with
                     | Some r => ws_send r frame
                     | None => throw TypeError_undefined
                     end;;
                     emit SocketEvent.send undefined)) st1 = (Throw e, st1)).
  { unfold syncOutBuffer. exec. subst st1. cbn [self]. simpl ws. rewrite Hws. exec.
    simpl. rewrite Hout.
    destruct (SocketConfig.buffer (opts (self st))); cbn [when len length];
      rewrite ?bind_ret, Htruthy, Hparse; reflexivity. }
  rewrite (try_catch_throws _ _ _ _ _ Htry). cbv beta.
  destruct (abort_signals st1 (Failure {| message := "Error sending message: "
                                                      +:+ message e |}) Hoff)
    as (Hr & He & Ht).
  unfold after in *. split; [exact Hr |]. split; [exact He |]. split; [| exact Ht].
  assert (Hpres : preserves (λ st', outBuffer (self st') = [])
                    (abort (Failure {| message := "Error sending message: "
                                                   +:+ message e |})))
    by frame_with keep.
  apply Hpres. exact Hout.
Qed.

(** ** The close handler *)

Lemma closeHandler_marks callback event st :
  closeCall (self (after (closeHandler callback event) st)) = true.
Proof.
  unfold after, closeHandler. exec.
  destruct (closeCall (self st)) eqn:Hcc; [exact Hcc |].
  exec.
  assert (Hp : preserves (λ st', closeCall (self st') = true)
                 (clearTimer "keepAlive";;
                  emit SocketEvent.close (CloseData event);;
                  call (callback event);;
                  sr ← shouldReconnect;
                  when sr reconnect;;
                  update (set_connected (Some false))))
    by frame_with keep.
  now apply Hp.
Qed.

(** X7.  The close handler acts once per connection: after it has run,
    returning or not, a further close event emits nothing, calls no
    callback, arms no retry and leaves the state as it is, until a
    [connect] clears the mark. *)
Theorem close_handled_once st callback event callback' event' :
  let st' := after (closeHandler callback event) st in
  closeHandler callback' event' st' = (Return tt, st').
Proof.
  cbv zeta. unfold closeHandler at 1. rewrite bind_this.
  now rewrite closeHandler_marks.
Qed.

(** The close handler on a socket whose close has not been handled and
    whose callback returns, up to the reconnect guard. *)
Lemma closeHandler_runs callback event st :
  closeCall (self st) = false →
  callback event = Return tt →
  ∃ T S,
    cleared "keepAlive" st = MkState (set_timers T (self st)) (set_scheduled S (world st))
    ∧ closeHandler callback event st
      = (sr ← shouldReconnect;
         when sr reconnect;;
         update (set_connected (Some false)))
          (MkState (set_timers T (set_closeCall true (self st)))
             (set_emitted (emitted (world st) ++ [(SocketEvent.close, CloseData event)])
                (set_scheduled S (world st)))).
Proof.
  intros Hcc Hcb. destruct (cleared_frame "keepAlive" st) as (T & S & E).
  exists T, S. split; [exact E |].
  unfold closeHandler. exec. rewrite Hcc. exec.
  rewrite bind_clearTimer.
  assert (Ec : cleared "keepAlive" (MkState (set_closeCall true (self st)) (world st))
               = MkState (set_timers T (set_closeCall true (self st)))
                   (set_scheduled S (world st))).
  { revert E. unfold cleared. cbn [self world]. 
    change (pending "keepAlive" (set_closeCall true (self st)))
      with (pending "keepAlive" (self st)).
    destruct (pending "keepAlive" (self st)).
    - intros [= <- <-]. reflexivity.
    - intros ->. reflexivity. }
  rewrite Ec. unfold emit. exec. rewrite Hcb. cbn [call]. exec. reflexivity.
Qed.

Lemma uptime_runs st :
  uptime st
  = (Return (uptime_read st),
     if active (self st)
     then MkState (set_prevTimeStamp (now (world st))
                     (set_upTime (upTime (self st)
                                  + (now (world st) - prevTimeStamp (self st)))
                        (self st)))
            (world st)
     else st).
Proof.
  unfold uptime, uptime_read, timestamp, Date_now. exec.
  destruct (active (self st)); exec; reflexivity.
Qed.

(** The reconnect guard returns [eligible]; it reads the uptime, and so
    moves the checkpoint, only when the first three conditions hold. *)
Lemma shouldReconnect_runs st :
  shouldReconnect st
  = (Return (eligible st),
     if negb (disconnectCall (self st))
        && (retries (self st) <? RetryConfig.amount (SocketConfig.retry (opts (self st))))
        && active (self st)
     then MkState (set_prevTimeStamp (now (world st))
                     (set_upTime (upTime (self st)
                                  + (now (world st) - prevTimeStamp (self st)))
                        (self st)))
            (world st)
     else st).
Proof.
  unfold shouldReconnect, eligible. exec. unfold id. cbv zeta. unfold isEmptyObj.
  cbn [negb]. rewrite andb_true_r.
  destruct (negb (disconnectCall (self st))
            && (retries (self st)
                <? RetryConfig.amount (SocketConfig.retry (opts (self st))))); cbn [andb].
  - rewrite (bind_returns _ _ _ _ _ (uptime_runs st)). reflexivity.
  - reflexivity.
Qed.

(** What the close handler does on a socket whose close has not been
    handled, the callback returning. *)
Lemma closeHandler_outcome st callback event :
  closeCall (self st) = false →
  callback event = Return tt →
  let st' := after (closeHandler callback event) st in
  (closeHandler callback event st).1 = Return tt
  ∧ emitted (world st') = emitted (world st) ++ [(SocketEvent.close, CloseData event)]
  ∧ connected (self st') = Some false
  ∧ pending "keepAlive" (self st') = None
  ∧ (eligible st = true → pending "retry" (self st) = None →
     retries (self st') = retries (self st) + 1
     ∧ ∃ h, (h ∉ issued (world st))
            ∧ pending "retry" (self st') = Some h
            ∧ scheduled (world st') !! h
              = Some {| kind := Once; callback := RetryFired;
                        delay := retry_delay (SocketConfig.retry (opts (self st)))
                                   (retries (self st) + 1) |})
  ∧ (eligible st = false ∨ is_Some (pending "retry" (self st)) →
     retries (self st') = retries (self st)
     ∧ pending "retry" (self st') = pending "retry" (self st)
     ∧ ∀ h, scheduled (world st) !! h = None → scheduled (world st') !! h = None).
Proof.
  intros Hcc Hcb st'. subst st'. unfold after.
  destruct (closeHandler_runs callback event st Hcc Hcb) as (T & S & E & ->).
  assert (HkT : pending "keepAlive" (set_timers T (self st)) = None).
  { pose proof (pending_cleared "keepAlive" st) as Hk. now rewrite E in Hk. }
  assert (HrT : pending "retry" (set_timers T (self st)) = pending "retry" (self st)).
  { pose proof (pending_cleared_ne "keepAlive" "retry" st) as Hk.
    rewrite E in Hk. simpl in Hk. apply Hk. discriminate. }
  assert (HS : ∀ h, scheduled (world st) !! h = None → S !! h = None).
  { intros h Hh. pose proof (cleared_unscheduled "keepAlive" st h Hh) as Hc.
    now rewrite E in Hc. }
  set (st1 := MkState (set_timers T (set_closeCall true (self st))) _).
  rewrite (bind_returns _ _ _ _ _ (shouldReconnect_runs st1)).
  change (eligible st1) with (eligible st).
  match goal with |- context [bind (when _ reconnect) _ ?s] => set (st2 := s) end.
  assert (Hp2 : pending "retry" (self st2) = pending "retry" (self st)).
  { subst st2 st1. cbn [self world]. destruct (_ && _ && _); exact HrT. }
  assert (Hk2 : pending "keepAlive" (self st2) = None).
  { subst st2 st1. cbn [self world]. destruct (_ && _ && _); exact HkT. }
  assert (Hr2 : retries (self st2) = retries (self st)).
  { subst st2 st1. cbn [self world]. now destruct (_ && _ && _). }
  assert (Ho2 : opts (self st2) = opts (self st)).
  { subst st2 st1. cbn [self world]. now destruct (_ && _ && _). }
  assert (He2 : emitted (world st2)
                = emitted (world st) ++ [(SocketEvent.close, CloseData event)]).
  { subst st2 st1. cbn [self world]. now destruct (_ && _ && _). }
  assert (Hs2 : scheduled (world st2) = S).
  { subst st2 st1. cbn [self world]. now destruct (_ && _ && _). }
  assert (Hi2 : issued (world st2) = issued (world st)).
  { subst st2 st1. cbn [self world]. now destruct (_ && _ && _). }
  clearbody st2. clear st1.
  assert (Hidle : (when (eligible st) reconnect st2 = (Return tt, st2))
                  ∨ (eligible st = true ∧ pending "retry" (self st) = None)).
  { destruct (eligible st) eqn:Hel; [| now left].
    destruct (pending "retry" (self st)) as [h |] eqn:Hp; [left | now right].
    cbn [when]. apply reconnect_blocked. left. rewrite Hp2. eauto. }
  destruct Hidle as [Hidle | [Hel Hp]].
  - rewrite (bind_returns _ _ _ _ _ Hidle). unfold update. cbn [fst snd self world].
    split; [reflexivity |]. split; [exact He2 |]. split; [reflexivity |].
    split; [exact Hk2 |]. split.
    + intros Hel Hp. exfalso.
      rewrite Hel in Hidle. cbn [when] in Hidle.
      assert (Hlt : retries (self st2)
                    < RetryConfig.amount (SocketConfig.retry (opts (self st2)))).
      { unfold eligible in Hel. apply andb_true_iff in Hel as [Hel _].
        apply andb_true_iff in Hel as [_ Hel]. apply Z.ltb_lt in Hel.
        now rewrite Hr2, Ho2. }
      rewrite Hp in Hp2.
      rewrite (reconnect_eligible st2 Hp2 Hlt) in Hidle.
      apply (f_equal (λ x, retries (self x.2))) in Hidle. simpl in Hidle. lia.
    + intros _. split; [exact Hr2 |]. split; [exact Hp2 |].
      intros h Hh. rewrite Hs2. now apply HS.
  - rewrite Hel. cbn [when]. rewrite Hp in Hp2.
    assert (Hlt : retries (self st2)
                  < RetryConfig.amount (SocketConfig.retry (opts (self st2)))).
    { pose proof Hel as Hel'. unfold eligible in Hel'.
      apply andb_true_iff in Hel' as [Hel' _].
      apply andb_true_iff in Hel' as [_ Hel']. apply Z.ltb_lt in Hel'.
      now rewrite Hr2, Ho2. }
    rewrite (bind_returns _ _ _ _ _ (reconnect_eligible st2 Hp2 Hlt)).
    unfold update. cbn [fst snd self world].
    split; [reflexivity |]. split; [exact He2 |]. split; [reflexivity |].
    split.
    { unfold pending in *. simpl. rewrite lookup_insert_ne by discriminate. exact Hk2. }
    split.
    + intros _ _. split; [simpl; now rewrite Hr2 |].
      exists (next_handle (world st2)).
      split; [rewrite <- Hi2; apply next_handle_new |].
      split; [unfold pending; simpl; now rewrite lookup_insert_eq |].
      simpl. rewrite lookup_insert_eq, Hr2, Ho2. reflexivity.
    + intros [Hno | [h Hh]]; [congruence | rewrite Hp in Hh; discriminate].
Qed.


(** ** After a manual disconnect *)

Lemma disconnect_marks_manual st r :
  ws (self st) = Some r → disconnectCall (self (after disconnect st)) = true.
Proof.
  intros Hws.
  assert (E : ∃ st0, disconnect st = cleanup st0 ∧ disconnectCall (self st0) = true).
  { unfold disconnect. rewrite bind_this, Hws.
    rewrite !bind_update. unfold ws_close, ws_alter.
    rewrite !bind_bind, bind_env. simpl.
    destruct (ws_readyState r (world st)) as [[] |];
      rewrite ?bind_update_env, ?bind_ret, !bind_update, !bind_this; simpl;
      destruct (controller (self st)), (abortListener (self st));
      rewrite ?bind_bind, ?bind_update, ?bind_ret;
      (eexists; split; [reflexivity | reflexivity]). }
  destruct E as (st0 & E & Hm). unfold after. rewrite E.
  assert (Hp : preserves (λ st', disconnectCall (self st') = true) cleanup)
    by frame_with keep.
  now apply Hp.
Qed.

Lemma shouldReconnect_manual st :
  disconnectCall (self st) = true → shouldReconnect st = (Return false, st).
Proof.
  intros Hm. rewrite shouldReconnect_runs. unfold eligible. now rewrite Hm.
Qed.

Lemma cleared_keepAlive_retry_untouched s w :
  retry_untouched (MkState s w) (cleared "keepAlive" (MkState s w)).
Proof.
  destruct (cleared_frame "keepAlive" (MkState s w)) as (T & S & E).
  pose proof (pending_cleared_ne "keepAlive" "retry" (MkState s w)) as Hp.
  pose proof (cleared_unscheduled "keepAlive" (MkState s w)) as Hs.
  rewrite E in *. simpl in *. repeat split; [apply Hp; discriminate | exact Hs].
Qed.

Lemma closeHandler_manual callback event st :
  disconnectCall (self st) = true →
  retry_untouched st (after (closeHandler callback event) st).
Proof.
  intros Hm. unfold after, closeHandler. exec.
  destruct (closeCall (self st)); [now repeat split |].
  exec. rewrite bind_clearTimer.
  pose proof (cleared_keepAlive_retry_untouched (set_closeCall true (self st)) (world st))
    as Hu.
  destruct (cleared_frame "keepAlive" (MkState (set_closeCall true (self st)) (world st)))
    as (T & S & E).
  rewrite E in *. simpl in Hu. unfold emit. exec.
  destruct (callback event) as [[] | e]; cbn [call]; [| exact Hu].
  exec.
  match goal with
  | |- context [bind shouldReconnect _ ?s] =>
      rewrite (bind_returns _ _ _ _ _ (shouldReconnect_manual s Hm))
  end.
  cbn [when]. exec. exact Hu.
Qed.

Lemma errorHandler_manual callback event st :
  disconnectCall (self st) = true →
  retry_untouched st (after (errorHandler callback event) st).
Proof.
  intros Hm. unfold after, errorHandler. rewrite bind_clearTimer.
  pose proof (cleared_keepAlive_retry_untouched (self st) (world st)) as Hu.
  destruct (cleared_frame "keepAlive" (MkState (self st) (world st))) as (T & S & E).
  assert (Est : cleared "keepAlive" st
                = MkState (set_timers T (self st)) (set_scheduled S (world st))).
  { destruct st. exact E. }
  rewrite E in Hu. rewrite Est. simpl in Hu. unfold emit. exec.
  destruct (callback event) as [[] | e]; cbn [call]; [| exact Hu].
  exec.
  match goal with
  | |- context [bind shouldReconnect _ ?s] =>
      rewrite (bind_returns _ _ _ _ _ (shouldReconnect_manual s Hm))
  end.
  cbn [when]. exact Hu.
Qed.

(** X9.  On the state a [disconnect] that found a transport leaves,
    that is until the next [connect], a close or an error event starts no
    reconnection, whatever the retry options: the retry count stays, no
    retry timer is held or scheduled, and nothing is added to the timer
    table.  The protection is the mark [#disconnectCall] and ends with the
    next [connect] that succeeds, which clears it together with the mark
    of the close handler: in a cycle [disconnect(); connect()], as the
    keep-alive timer runs it, the close event of the old transport arrives
    after both and is handled as a remote closure; if the socket is
    eligible then, it counts a retry and arms its timer. *)
Theorem no_retry_after_manual_disconnect st r :
  ws (self st) = Some r →
  let st1 := after disconnect st in
  (∀ st2,
     (∃ callback event, st2 = after (closeHandler callback event) st1)
     ∨ (∃ callback event, st2 = after (errorHandler callback event) st1) →
     retries (self st2) = retries (self st1)
     ∧ pending "retry" (self st2) = None
     ∧ ∀ h, scheduled (world st1) !! h = None → scheduled (world st2) !! h = None)
  ∧ (∀ u callback event,
       attempted (self st1) = Return u →
       callback event = Return tt →
       let st2 := after connect st1 in
       let st3 := after (closeHandler callback event) st2 in
       disconnectCall (self st1) = true
       ∧ disconnectCall (self st2) = false
       ∧ emitted (world st3)
         = emitted (world st2) ++ [(SocketEvent.close, CloseData event)]
       ∧ connected (self st3) = Some false
       ∧ (eligible st2 = true →
          retries (self st3) = retries (self st2) + 1
          ∧ ∃ h, pending "retry" (self st3) = Some h
                 ∧ scheduled (world st3) !! h
                   = Some {| kind := Once; callback := RetryFired;
                             delay := retry_delay (SocketConfig.retry (opts (self st2)))
                                        (retries (self st2) + 1) |})).
Proof.
  intros Hws st1.
  assert (Hm : disconnectCall (self st1) = true) by now apply (disconnect_marks_manual st r).
  assert (Hidle : pending "retry" (self st1) = None).
  { destruct (disconnect_reaches_cleanup st r Hws) as (st0 & E & _).
    destruct (cleanup_cleans st0) as [_ (Hi & _)].
    subst st1. unfold after in *. rewrite E. apply Hi. }
  split.
  - intros st2 Hst2.
    assert (Hu : retry_untouched st1 st2).
    { destruct Hst2 as [(cb & ev & ->) | (cb & ev & ->)].
      - now apply closeHandler_manual.
      - now apply errorHandler_manual. }
    destruct Hu as (Hr & Hp & _ & Hs). split; [exact Hr |]. split; [congruence | exact Hs].
  - intros u cb ev Hatt Hcb st2 st3.
    assert (Hws1 : ws (self st1) = None) by apply disconnect_drops_transport.
    pose proof (connect_succeeds st1 u Hws1 Hatt) as E. cbv zeta in E.
    assert (Hcc2 : closeCall (self st2) = false).
    { subst st2. unfold after. now rewrite E. }
    assert (Hdc2 : disconnectCall (self st2) = false).
    { subst st2. unfold after. now rewrite E. }
    assert (Hp2 : pending "retry" (self st2) = None).
    { subst st2. unfold after. rewrite E. exact Hidle. }
    destruct (closeHandler_outcome st2 cb ev Hcc2 Hcb) as (_ & He & Hc & _ & Harm & _).
    split; [exact Hm |]. split; [exact Hdc2 |]. split; [exact He |]. split; [exact Hc |].
    intros Hel. destruct (Harm Hel Hp2) as (Hr & h & _ & Hp & Hs).
    split; [exact Hr |]. exists h. now split.
Qed.

(** ** Inbound messages *)

Lemma messageHandler_paused c event st :
  paused (self st) = true →
  messageHandler c event st
  = (Return tt,
     match SocketConfig.buffer (opts (self st)) with
     | Some b =>
         if len (captured c st) <? BufferConfig.max b
         then MkState (self st)
                (set_arrays (<[msg_inBuffer c := captured c st ++ [event]]>
                               (arrays (world st))) (world st))
         else st
     | None => st
     end).
Proof.
  intros Hp. unfold messageHandler. apply try_catch_returns.
  exec. rewrite Hp. cbn [negb]. unfold read_array. exec.
  fold (captured c st).
  destruct (SocketConfig.buffer (opts (self st))) as [b |]; [| reflexivity].
  destruct (len (captured c st) <? BufferConfig.max b); [| reflexivity].
  cbn [when]. unfold push_array, update_env. destruct st. reflexivity.
Qed.

(** X10.  A message received while paused is not delivered: no event is
    emitted, no callback runs and the object's fields stay as they are.  It
    is appended to the array the handler captured when that array is below
    [buffer.max], and dropped otherwise, so an array within capacity stays
    within capacity; with buffering off it is dropped. *)
Theorem paused_message_is_buffered st c event :
  paused (self st) = true →
  let st' := after (messageHandler c event) st in
  (messageHandler c event st).1 = Return tt
  ∧ self st' = self st
  ∧ emitted (world st') = emitted (world st)
  ∧ (SocketConfig.buffer (opts (self st)) = None → st' = st)
  ∧ ∀ b, SocketConfig.buffer (opts (self st)) = Some b →
         (len (captured c st) < BufferConfig.max b →
          captured c st' = captured c st ++ [event])
         ∧ (BufferConfig.max b ≤ len (captured c st) → st' = st)
         ∧ (len (captured c st) ≤ BufferConfig.max b →
            len (captured c st') ≤ BufferConfig.max b).
Proof.
  intros Hp st'. subst st'. unfold after. rewrite (messageHandler_paused c event st Hp).
  cbn [fst snd]. split; [reflexivity |].
  destruct (SocketConfig.buffer (opts (self st))) as [b |].
  - destruct (len (captured c st) <? BufferConfig.max b) eqn:E.
    + apply Z.ltb_lt in E. split; [reflexivity |]. split; [reflexivity |].
      split; [discriminate |]. intros b' [= <-].
      assert (Hc : captured c (MkState (self st)
                      (set_arrays (<[msg_inBuffer c := captured c st ++ [event]]>
                                     (arrays (world st))) (world st)))
                   = captured c st ++ [event]).
      { unfold captured at 1. simpl. now rewrite lookup_insert_eq. }
      split; [intros _; exact Hc |]. split; [intros Hge; lia |].
      intros _. rewrite Hc. unfold len in *. rewrite length_app. simpl. lia.
    + apply Z.ltb_ge in E. split; [reflexivity |]. split; [reflexivity |].
      split; [discriminate |]. intros b' [= <-].
      split; [intros Hlt; lia |]. split; [reflexivity |]. trivial.
  - split; [reflexivity |]. split; [reflexivity |]. split; [reflexivity |].
    intros b' [=].
Qed.

Lemma syncInBuffer_idle st : inbound st = [] → syncInBuffer st = (Return tt, st).
Proof.
  intros Hin. unfold syncInBuffer, read_array. exec. fold (inbound st). rewrite Hin.
  destruct (SocketConfig.buffer (opts (self st))); reflexivity.
Qed.

Lemma syncOutBuffer_idle st : outBuffer (self st) = [] → syncOutBuffer st = (Return tt, st).
Proof.
  intros Hout. unfold syncOutBuffer. exec.
  destruct (ws (self st)); [| reflexivity]. exec. rewrite Hout.
  destruct (SocketConfig.buffer (opts (self st))); reflexivity.
Qed.

(** [resume] with both queues empty: nothing is delivered or sent; the
    retry mark is cleared and the uptime checkpoint moves to now. *)
Lemma resume_idle st :
  paused (self st) = true → inbound st = [] → outBuffer (self st) = [] →
  resume st
  = (Return tt,
     MkState (set_paused false
                (set_prevTimeStamp (now (world st)) (set_retryCall false (self st))))
       (world st)).
Proof.
  intros Hp Hin Hout. unfold resume, sync, Date_now. exec. rewrite Hp. cbn [when]. exec.
  rewrite (bind_returns _ _ _ _ _ (syncInBuffer_idle st Hin)). cbv beta. exec.
  rewrite (bind_returns _ _ _ _ _ (syncOutBuffer_idle st Hout)). cbv beta.
  exec. reflexivity.
Qed.

(** X11.  A handler whose captured array is no longer [#inBuffer] (the
    field has been replaced by a flush or a cleanup since [onData] ran)
    buffers into the old array: a message it receives while paused never
    reaches [#inBuffer], and the [resume] that follows delivers nothing for
    it. *)
Theorem stale_handler_loses_messages st c event :
  paused (self st) = true →
  msg_inBuffer c ≠ inBuffer (self st) →
  let st1 := after (messageHandler c event) st in
  inbound st1 = inbound st
  ∧ (inbound st = [] → outBuffer (self st) = [] →
     (resume st1).1 = Return tt
     ∧ emitted (world (after resume st1)) = emitted (world st)
     ∧ inbound (after resume st1) = []).
Proof.
  intros Hp Hstale st1.
  assert (Hin : inbound st1 = inbound st).
  { subst st1. unfold after. rewrite (messageHandler_paused c event st Hp). cbn [snd].
    destruct (SocketConfig.buffer (opts (self st))) as [b |]; [| reflexivity].
    destruct (len (captured c st) <? BufferConfig.max b); [| reflexivity].
    unfold inbound. simpl. now rewrite lookup_insert_ne. }
  split; [exact Hin |]. intros Hempty Hout.
  assert (Hself : self st1 = self st ∧ emitted (world st1) = emitted (world st)).
  { subst st1. unfold after. rewrite (messageHandler_paused c event st Hp). cbn [snd].
    destruct (SocketConfig.buffer (opts (self st))) as [b |]; [| now split].
    destruct (len (captured c st) <? BufferConfig.max b); now split. }
  destruct Hself as [Hself Hem].
  unfold after at 1 2. rewrite resume_idle.
  - cbn [fst snd]. split; [reflexivity |]. split; [exact Hem |].
    unfold inbound in *. simpl. rewrite Hself. congruence.
  - now rewrite Hself.
  - congruence.
  - now rewrite Hself.
Qed.

(** The loop of [syncInBuffer] with a data callback that returns. *)
Lemma deliver_buffered f l st :
  dataCallback (self st) = Some f →
  Forall (λ ev, f ev = Return tt) l →
  for_of l
    (λ bufferedEvents,
       emit SocketEvent.data (MessageData bufferedEvents);;
       cb ← this dataCallback;
       match cb with
       | Some f => call (f bufferedEvents)
       | None => throw TypeError_undefined
       end) st
  = (Return tt,
     MkState (self st)
       (set_emitted (emitted (world st)
                     ++ map (λ ev, (SocketEvent.data, MessageData ev)) l) (world st))).
Proof.
  intros Hcb Hl. revert st Hcb.
  induction Hl as [| ev l Hev _ IH]; intros st Hcb; cbn [for_of map].
  - rewrite app_nil_r. destruct st as [? []]. reflexivity.
  - unfold emit. exec. cbn [self]. rewrite Hcb, Hev. cbn [call]. exec.
    rewrite IH by exact Hcb. simpl. now rewrite <- app_assoc.
Qed.

(** X12.  The inbound backlog is released only when it is longer than
    [buffer.min] (strictly).  At or below the threshold [syncInBuffer]
    changes nothing.  Above it, with a data callback that returns, every
    buffered message is emitted as [data] in arrival order, and [#inBuffer]
    becomes a new empty array: the old array keeps its content and is no
    longer the field. *)
Theorem inbound_release_threshold st b f :
  SocketConfig.buffer (opts (self st)) = Some b →
  dataCallback (self st) = Some f →
  Forall (λ ev, f ev = Return tt) (inbound st) →
  (len (inbound st) ≤ BufferConfig.min b → syncInBuffer st = (Return tt, st))
  ∧ (BufferConfig.min b < len (inbound st) → inbound st ≠ [] →
     let st' := after syncInBuffer st in
     (syncInBuffer st).1 = Return tt
     ∧ emitted (world st')
       = emitted (world st) ++ map (λ ev, (SocketEvent.data, MessageData ev)) (inbound st)
     ∧ inbound st' = []
     ∧ arrays (world st') !! inBuffer (self st) = arrays (world st) !! inBuffer (self st)
     ∧ (is_Some (arrays (world st) !! inBuffer (self st)) →
        inBuffer (self st') ≠ inBuffer (self st))).
Proof.
  intros Hb Hcb Hl. split.
  - intros Hle. unfold syncInBuffer, read_array. exec. fold (inbound st). rewrite Hb.
    assert ((len (inbound st) >? BufferConfig.min b) = false) as ->.
    { rewrite Z.gtb_ltb. apply Z.ltb_ge. exact Hle. }
    now rewrite andb_false_r.
  - intros Hgt Hne st'. subst st'. unfold after, syncInBuffer, read_array. exec.
    fold (inbound st). rewrite Hb.
    assert ((negb (len (inbound st) =? 0)
             && (len (inbound st) >? BufferConfig.min b)) = true) as ->.
    { apply andb_true_iff. split.
      - apply negb_true_iff, Z.eqb_neq. unfold len.
        destruct (inbound st); [congruence | simpl; lia].
      - rewrite Z.gtb_ltb. now apply Z.ltb_lt. }
    cbn [when]. exec.
    rewrite (bind_returns _ _ _ _ _ (deliver_buffered f (inbound st) st Hcb Hl)).
    unfold new_array. exec. unfold id. simpl.
    split; [reflexivity |]. split; [reflexivity |].
    set (r' := fresh (dom (arrays (world st)))).
    assert (Hfresh : arrays (world st) !! r' = None) by apply not_elem_of_dom, is_fresh.
    split; [unfold inbound; simpl; now rewrite lookup_insert_eq |].
    split.
    + destruct (decide (r' = inBuffer (self st))) as [E | Hne'].
      * rewrite <- E, lookup_insert_eq, Hfresh.
        exfalso. apply Hne. unfold inbound. now rewrite <- E, Hfresh.
      * now rewrite lookup_insert_ne.
    + intros [x Hx] E. rewrite <- E in Hx. congruence.
Qed.

(** X13.  The outbound queue is released when its length has reached
    [buffer.min] (not strictly).  Below the threshold, or when empty,
    [syncOutBuffer] changes nothing.  Otherwise, on an open transport with
    a parser that returns, the first [buffer.max] queued payloads go on the
    wire in order, one [send] event each, and the whole queue is
    emptied. *)
Theorem outbound_release_threshold st r b (enc : Out → OutData) :
  ws (self st) = Some r →
  ws_readyState r (world st) = Some WebSocket.OPEN →
  SocketConfig.buffer (opts (self st)) = Some b →
  Forall (λ i, parser (self st) i = Return (enc i)) (outBuffer (self st)) →
  (len (outBuffer (self st)) < BufferConfig.min b ∨ outBuffer (self st) = [] →
   syncOutBuffer st = (Return tt, st))
  ∧ (BufferConfig.min b ≤ len (outBuffer (self st)) → outBuffer (self st) ≠ [] →
     let st' := after syncOutBuffer st in
     let released := take (Z.to_nat (BufferConfig.max b)) (outBuffer (self st)) in
     (syncOutBuffer st).1 = Return tt
     ∧ transmitted r st' = transmitted r st ++ map enc released
     ∧ emitted (world st')
       = emitted (world st) ++ replicate (length released) (SocketEvent.send, undefined)
     ∧ outBuffer (self st') = []).
Proof.
  intros Hws Hopen Hb Hparse. split.
  - intros [Hlt | Hempty]; [| now apply syncOutBuffer_idle].
    unfold syncOutBuffer. exec. rewrite Hws. exec. rewrite Hb.
    assert ((len (outBuffer (self st)) >=? BufferConfig.min b) = false) as ->.
    { rewrite Z.geb_leb. apply Z.leb_gt. exact Hlt. }
    now rewrite andb_false_r.
  - intros Hge Hne st' released. subst st'. unfold after, syncOutBuffer. exec.
    rewrite Hws. exec. rewrite Hb.
    assert ((negb (len (outBuffer (self st)) =? 0)
             && (len (outBuffer (self st)) >=? BufferConfig.min b)) = true) as ->.
    { apply andb_true_iff. split.
      - apply negb_true_iff, Z.eqb_neq. unfold len.
        destruct (outBuffer (self st)); [congruence | simpl; lia].
      - rewrite Z.geb_leb. now apply Z.leb_le. }
    cbn [when]. exec.
    assert (Htake : take (Z.to_nat (BufferConfig.max b `min` len (outBuffer (self st))))
                      (outBuffer (self st)) = released).
    { subst released. unfold len.
      destruct (Z_le_gt_dec (BufferConfig.max b) (Z.of_nat (length (outBuffer (self st)))))
        as [Hle | Hgt].
      - now rewrite Z.min_l.
      - rewrite Z.min_r by lia. rewrite Nat2Z.id, firstn_all.
        symmetry. apply take_ge. lia. }
    rewrite Htake.
    destruct (drain_transmits r enc released st Hopen) as (st1 & E & Hself & Hsent & Hem).
    { subst released. now apply Forall_take. }
    rewrite (bind_returns _ _ _ _ _ E). simpl.
    split; [reflexivity |]. split; [exact Hsent |]. split; [exact Hem | reflexivity].
Qed.

(** X14.  A message received while not paused, with nothing buffered
    inbound and a callback that returns, is emitted as [data].  It counts
    as the answer to a ping when a single ping is outstanding, whatever the
    message says, or when the heartbeat is running and the message is the
    pong literal: then [pong] is emitted after [data], the ping timeout is
    cancelled and [#pingStart] is cleared.  Otherwise the timers are left
    alone. *)
Theorem message_answers_ping st c event :
  paused (self st) = false →
  inbound st = [] →
  msg_callback c event = Return tt →
  let st' := after (messageHandler c event) st in
  (messageHandler c event st).1 = Return tt
  ∧ emitted (world st')
    = emitted (world st)
      ++ (SocketEvent.data, MessageData event)
         :: (if answers_ping st event then [(SocketEvent.pong, undefined)] else [])
  ∧ pingStart (self st') = false
  ∧ (answers_ping st event = true →
     pending "ping" (self st') = None
     ∧ ∀ h, pending "ping" (self st) = Some h → scheduled (world st') !! h = None)
  ∧ (answers_ping st event = false →
     timers (self st') = timers (self st)
     ∧ scheduled (world st') = scheduled (world st)).
Proof.
  intros Hp Hin Hcb st'. subst st'. unfold after, messageHandler.
  assert (Hbody : ∃ st1,
    (p ← this paused;
     if negb p then
       emit SocketEvent.data (MessageData event);;
       s ← this id;
       when (pingStart s || (heartBeatRunning s && String.eqb (data event) PongContent))
         (emit SocketEvent.pong undefined;;
          clearTimer "ping";;
          update (set_pingStart false));;
       syncInBuffer;;
       call (msg_callback c event)
     else
       bufferOpts ← this (λ s, SocketConfig.buffer (opts s));
       inBuf ← read_array (msg_inBuffer c);
       match bufferOpts with
       | Some b => when (len inBuf <? BufferConfig.max b) (push_array (msg_inBuffer c) event)
       | None => ret tt
       end) st = (Return tt, st1)
    ∧ emitted (world st1)
      = emitted (world st)
        ++ (SocketEvent.data, MessageData event)
           :: (if answers_ping st event then [(SocketEvent.pong, undefined)] else [])
    ∧ pingStart (self st1) = false
    ∧ (answers_ping st event = true →
       pending "ping" (self st1) = None
       ∧ ∀ h, pending "ping" (self st) = Some h → scheduled (world st1) !! h = None)
    ∧ (answers_ping st event = false →
       timers (self st1) = timers (self st)
       ∧ scheduled (world st1) = scheduled (world st))).
  { exec. rewrite Hp. cbn [negb]. unfold emit. exec. unfold id. cbn [self world].
    fold (answers_ping st event).
    destruct (answers_ping st event) eqn:Hans; cbn [when].
    - exec. rewrite bind_clearTimer.
      match goal with |- context [cleared "ping" ?s] => set (st0 := s) end.
      pose proof (pending_cleared "ping" st0) as Hidle.
      assert (Hcancel : ∀ h, pending "ping" (self st) = Some h →
                             scheduled (world (cleared "ping" st0)) !! h = None).
      { intros h Hh. now apply cleared_cancels. }
      destruct (cleared_frame "ping" st0) as (T & S & E). rewrite E in *.
      exec.
      match goal with |- context [bind syncInBuffer _ ?s] =>
        rewrite (bind_returns _ _ _ _ _ (syncInBuffer_idle s Hin)) end.
      rewrite Hcb. eexists. split; [reflexivity |]. subst st0. simpl.
      split; [now rewrite <- app_assoc |]. split; [reflexivity |].
      split; [intros _; split; [exact Hidle | exact Hcancel] | discriminate].
    - exec.
      match goal with |- context [bind syncInBuffer _ ?s] =>
        rewrite (bind_returns _ _ _ _ _ (syncInBuffer_idle s Hin)) end.
      rewrite Hcb. eexists. split; [reflexivity |]. simpl.
      split; [reflexivity |]. split.
      + unfold answers_ping in Hans. now apply orb_false_iff in Hans as [-> _].
      + split; [discriminate | now split]. }
  destruct Hbody as (st1 & E & Hfacts).
  rewrite (try_catch_returns _ _ _ _ _ E). cbn [fst snd]. split; [reflexivity | exact Hfacts].
Qed.

(** ** The heartbeat *)

Lemma startBeat_live st r :
  active (self st) = true → ws (self st) = Some r →
  ws_readyState r (world st) = Some WebSocket.OPEN →
  pingStart (self st) = false →
  ∃ T S,
    cleared "heartbeat" st = MkState (set_timers T (self st)) (set_scheduled S (world st))
    ∧ startBeat st
      = (Return tt,
         let h1 := fresh (issued (world st) ∪ dom S) in
         let beat := {| kind := Repeating; callback := BeatTick;
                        delay := PingConfig.heartbeat (SocketConfig.ping (opts (self st))) |} in
         let h2 := fresh (({[h1]} ∪ issued (world st)) ∪ dom (<[h1 := beat]> S)) in
         MkState
           (set_timers (<["ping" := Some h2]> (<["heartbeat" := Some h1]> T))
              (set_heartBeatRunning true (self st)))
           (set_issued ({[h2]} ∪ ({[h1]} ∪ issued (world st)))
              (set_scheduled
                 (<[h2 := {| kind := Once; callback := BeatPingTimedOut;
                             delay := PingConfig.timeout
                                        (SocketConfig.ping (opts (self st))) |}]>
                    (<[h1 := beat]> S))
                 (set_sockets
                    (alter (λ x, WebSocket.set_sent (WebSocket.sent x ++ [PingContent]) x) r
                       (sockets (world st)))
                    (set_emitted (emitted (world st) ++ [(SocketEvent.ping, undefined)])
                       (world st)))))).
Proof.
  intros Ha Hws Hopen Hps.
  destruct (cleared_frame "heartbeat" st) as (T & S & E).
  exists T, S. split; [exact E |].
  unfold startBeat. exec. unfold id. rewrite Ha, Hws, Hps.
  rewrite bool_decide_eq_true_2 by eauto. cbn [andb negb when]. exec.
  rewrite bind_clearTimer.
  assert (Ec : cleared "heartbeat" (MkState (set_heartBeatRunning true (self st)) (world st))
               = MkState (set_timers T (set_heartBeatRunning true (self st)))
                   (set_scheduled S (world st))).
  { revert E. unfold cleared. cbn [self world].
    change (pending "heartbeat" (set_heartBeatRunning true (self st)))
      with (pending "heartbeat" (self st)).
    destruct (pending "heartbeat" (self st)).
    - intros [= <- <-]. reflexivity.
    - intros ->. reflexivity. }
  rewrite Ec. unfold setInterval, setTimeout, schedule, set_timer, sendPing, emit.
  exec. unfold id. cbn [self world]. simpl ws. rewrite Hws.
  unfold ws_send. exec. cbn [self world].
  replace (ws_readyState r _) with (Some WebSocket.OPEN)
    by (rewrite <- Hopen; reflexivity).
  unfold ws_alter. exec. reflexivity.
Qed.

(** X15.  [startBeat] on an active connection with an open transport and
    no single ping outstanding: the heartbeat flag is set, one [ping] is
    emitted and one ping payload sent at once, a repeating timer of the
    heartbeat period is armed under ["heartbeat"] and a single-shot timeout
    of the ping timeout under ["ping"], two distinct timers; [#pingStart]
    stays unset. *)
Theorem startBeat_starts st r :
  active (self st) = true → ws (self st) = Some r →
  ws_readyState r (world st) = Some WebSocket.OPEN →
  pingStart (self st) = false →
  let st' := after startBeat st in
  (startBeat st).1 = Return tt
  ∧ beating st' = true
  ∧ pingStart (self st') = false
  ∧ emitted (world st') = emitted (world st) ++ [(SocketEvent.ping, undefined)]
  ∧ transmitted r st' = transmitted r st ++ [PingContent]
  ∧ ∃ h1 h2,
      h1 ≠ h2
      ∧ pending "heartbeat" (self st') = Some h1
      ∧ scheduled (world st') !! h1
        = Some {| kind := Repeating; callback := BeatTick;
                  delay := PingConfig.heartbeat (SocketConfig.ping (opts (self st))) |}
      ∧ pending "ping" (self st') = Some h2
      ∧ scheduled (world st') !! h2
        = Some {| kind := Once; callback := BeatPingTimedOut;
                  delay := PingConfig.timeout (SocketConfig.ping (opts (self st))) |}.
Proof.
  intros Ha Hws Hopen Hps st'. subst st'. unfold after.
  destruct (startBeat_live st r Ha Hws Hopen Hps) as (T & S & _ & ->).
  cbv zeta. cbn [fst snd].
  set (beat := {| kind := Repeating; callback := BeatTick; delay := _ |}).
  set (h1 := fresh (issued (world st) ∪ dom S)).
  set (h2 := fresh (({[h1]} ∪ issued (world st)) ∪ dom (<[h1 := beat]> S))).
  assert (Hne : h1 ≠ h2).
  { intros E. pose proof (is_fresh (({[h1]} ∪ issued (world st)) ∪ dom (<[h1 := beat]> S)))
      as Hf. fold h2 in Hf. apply Hf. rewrite <- E. set_solver. }
  split; [reflexivity |]. split; [reflexivity |]. split; [exact Hps |].
  split; [reflexivity |]. split.
  { unfold transmitted. simpl. rewrite lookup_alter_eq.
    unfold ws_readyState in Hopen. destruct (sockets (world st) !! r); [reflexivity |].
    discriminate. }
  exists h1, h2. split; [exact Hne |]. unfold pending. simpl.
  rewrite lookup_insert_ne by discriminate. rewrite !lookup_insert_eq.
  rewrite lookup_insert_ne by congruence. rewrite lookup_insert_eq. repeat split.
Qed.

Lemma startBeat_blocked st :
  active (self st) = false ∨ ws (self st) = None ∨ pingStart (self st) = true →
  startBeat st = (Return tt, st).
Proof.
  intros Hb. unfold startBeat. exec. unfold id.
  destruct Hb as [-> | [-> | ->]]; [reflexivity | |].
  - rewrite bool_decide_eq_false_2 by (intros [? ?]; discriminate).
    now rewrite andb_false_r.
  - now rewrite andb_false_r.
Qed.

(** X16.  Heartbeat and single ping exclude each other in one direction:
    once [ping] has gone out on an active, open connection, [startBeat]
    changes nothing, and it changes nothing on a socket that is not active
    or has no transport. *)
Theorem heartbeat_waits_for_ping st :
  (active (self st) = false ∨ ws (self st) = None ∨ pingStart (self st) = true →
   startBeat st = (Return tt, st))
  ∧ (∀ r, active (self st) = true → ws (self st) = Some r →
          ws_readyState r (world st) = Some WebSocket.OPEN →
          startBeat (after ping st) = (Return tt, after ping st)).
Proof.
  split; [apply startBeat_blocked |].
  intros r Ha Hws Hopen. apply startBeat_blocked. right. right.
  destruct (ping_live st r Ha Hws Hopen) as (T & S & x & _ & _ & E).
  unfold after. now rewrite E.
Qed.


(** ** [pause] and the other timers *)

Lemma cleared_spares timer st h :
  pending timer (self st) ≠ Some h →
  scheduled (world (cleared timer st)) !! h = scheduled (world st) !! h.
Proof.
  intros Hne. unfold cleared. destruct (pending timer (self st)) as [h' |]; [| reflexivity].
  simpl. apply lookup_delete_ne. congruence.
Qed.

(** X18.  [pause] sets the paused flag and touches no timer but the ping
    and the heartbeat: every other name keeps its handle, and every timer
    of the table other than those two stays scheduled. *)
Theorem pause_spares_other_timers st :
  let st' := after pause st in
  paused (self st') = true
  ∧ (∀ name, name ≠ "ping" → name ≠ "heartbeat" →
             pending name (self st') = pending name (self st))
  ∧ (∀ h, pending "ping" (self st) ≠ Some h → pending "heartbeat" (self st) ≠ Some h →
          scheduled (world st') !! h = scheduled (world st) !! h).
Proof.
  cbv zeta. unfold after. rewrite pause_runs. cbn [snd].
  set (st0 := MkState (set_paused true (self st)) (world st)).
  split; [| split].
  - destruct (cleared_frame "heartbeat" (cleared "ping" st0)) as (T & S & ->).
    destruct (cleared_frame "ping" st0) as (T' & S' & ->). reflexivity.
  - intros name Hp Hh. rewrite !pending_cleared_ne by congruence. reflexivity.
  - intros h Hp Hh. rewrite cleared_spares.
    + now rewrite cleared_spares.
    + now rewrite pending_cleared_ne by discriminate.
Qed.

(** ** Uptime is counted on reads *)

(** X19.  The uptime is accumulated only when it is read while active,
    from the checkpoint that the last read, open or resume left.  On an
    active socket with empty queues, after [a] ms, a pause of [b] ms and
    [c] more ms, a read finds the uptime grown by [c] alone: the pause is
    not counted, and neither are the [a] ms before it, which no read had
    collected.  A read just before the pause collects them. *)
Theorem uptime_counts_from_checkpoint st a b c :
  active (self st) = true →
  inbound st = [] →
  outBuffer (self st) = [] →
  upTime (self (run [Elapse a; Pause; Elapse b; Resume; Elapse c; GetUptime] st))
  = upTime (self st) + c
  ∧ upTime (self (run [Elapse a; GetUptime; Pause; Elapse b; Resume; Elapse c; GetUptime] st))
    = upTime (self st) + (now (world st) + a - prevTimeStamp (self st)) + c.
Proof.
  intros Ha Hin Hout.
  assert (Hact : connected (self st) = Some true ∧ paused (self st) = false).
  { unfold active in Ha. apply andb_true_iff in Ha as [Hc Hp].
    apply negb_true_iff in Hp. destruct (connected (self st)) as [[] |]; try discriminate.
    now split. }
  destruct Hact as [Hc Hp].
  assert (Hresume : ∀ s w, inBuffer s = inBuffer (self st) → arrays w = arrays (world st) →
                           outBuffer s = [] → paused s = true →
                           resume (MkState s w)
                           = (Return tt,
                              MkState (set_paused false
                                         (set_prevTimeStamp (now w) (set_retryCall false s)))
                                w)).
  { intros s w Hi Harr Ho Hps. apply (resume_idle (MkState s w)); try assumption.
    unfold inbound in *. simpl. now rewrite Hi, Harr. }
  assert (Hcons : ∀ op ops s, run (op :: ops) s = run ops (after (step op) s))
    by reflexivity.
  assert (Helapse : ∀ ms s, after (step (Elapse ms)) s
                            = MkState (self s) (set_now (now (world s) + ms) (world s)))
    by reflexivity.
  assert (Hpause : ∀ s, ∃ T S, after (step Pause) s
                               = MkState (set_timers T (set_paused true (self s)))
                                   (set_scheduled S (world s))).
  { intros s. unfold after, step. rewrite pause_runs. cbn [snd].
    match goal with |- context [cleared "heartbeat" (cleared "ping" ?s)] =>
      destruct (cleared_frame "heartbeat" (cleared "ping" s)) as (T & S & ->);
      destruct (cleared_frame "ping" s) as (T' & S' & ->) end.
    now exists T, S. }
  assert (Hread : ∀ s, after (step GetUptime) s = after uptime s).
  { intros s. unfold after, step. now rewrite (bind_returns _ _ _ _ _ (uptime_runs s)),
      uptime_runs. }
  split.
  - rewrite Hcons, Helapse, Hcons.
    match goal with |- context [after (step Pause) ?s] =>
      destruct (Hpause s) as (T & S & ->) end.
    rewrite Hcons, Helapse, Hcons. cbn [self world].
    unfold after at 1. unfold step at 1.
    rewrite Hresume; [| reflexivity | reflexivity | exact Hout | reflexivity].
    cbn [snd]. rewrite Hcons, Helapse, Hcons, Hread. cbn [run foldl self world].
    unfold after. rewrite uptime_runs. cbn [snd]. unfold active. simpl.
    rewrite Hc. simpl. lia.
  - rewrite Hcons, Helapse, Hcons, Hread. unfold after at 1. rewrite uptime_runs.
    cbn [snd self world]. unfold active at 1. cbn [self]. rewrite Hc, Hp.
    cbn [default andb negb]. rewrite Hcons.
    match goal with |- context [after (step Pause) ?s] =>
      destruct (Hpause s) as (T & S & ->) end.
    rewrite Hcons, Helapse, Hcons. cbn [self world].
    unfold after at 1. unfold step at 1.
    rewrite Hresume; [| reflexivity | reflexivity | exact Hout | reflexivity].
    cbn [snd]. rewrite Hcons, Helapse, Hcons, Hread. cbn [run foldl self world].
    unfold after. rewrite uptime_runs. cbn [snd]. unfold active. simpl.
    rewrite Hc. simpl. lia.
Qed.

(** ** Replacement cycles *)

Lemma connect_is_attempt st : ws (self st) = None → connect st = connect_attempt st.
Proof. apply connect_without_transport. Qed.

Lemma disconnect_returns st : disconnect st = (Return tt, after disconnect st).
Proof. apply unfailing_unit, disconnect_unfailing. Qed.

Lemma connect_returns st : connect st = (Return tt, after connect st).
Proof. apply unfailing_unit, connect_unfailing. Qed.

Lemma connect_after_disconnect st : connect st = connect_attempt (after disconnect st).
Proof.
  destruct (ws (self st)) as [r |] eqn:Hws.
  - unfold connect at 1. rewrite bind_this, Hws.
    change (bool_decide (is_Some (Some r))) with true. cbn [when].
    now rewrite (bind_returns _ _ _ _ _ (disconnect_returns st)).
  - unfold after. rewrite disconnect_without_transport by exact Hws.
    now apply connect_is_attempt.
Qed.

Lemma disconnect_then_connect st :
  (disconnect;; connect) st = connect_attempt (after disconnect st).
Proof.
  rewrite (bind_returns _ _ _ _ _ (disconnect_returns st)).
  rewrite connect_is_attempt by apply disconnect_drops_transport. reflexivity.
Qed.

Lemma connect_attempt_returns st :
  connect_attempt st = (Return tt, after connect_attempt st).
Proof. apply unfailing_unit. unfold connect_attempt. safe. Qed.

Lemma connect_attempt_keeps_queues out l :
  preserves (λ st, outBuffer (self st) = out ∧ inbound st = l) connect_attempt.
Proof. unfold connect_attempt. frame_with keep. Qed.

Lemma disconnect_cleaned st r :
  ws (self st) = Some r → cleaned st (after disconnect st).
Proof.
  intros Hws. destruct (disconnect_reaches_cleanup st r Hws) as (st0 & E & Hc & _).
  destruct (cleanup_cleans st0) as [_ Hclean]. unfold after. rewrite E. now apply Hc.
Qed.

(** X20.  When the keep-alive timer expires on a socket that has a
    transport and is not in a reconnect cycle, the forced replacement goes
    through the manual path: whatever [connect] then does, the outbound
    queue and the inbound buffer are empty afterwards, so payloads queued
    while paused are lost. *)
Theorem keepalive_cycle_clears_queues st r :
  ws (self st) = Some r →
  retryCall (self st) = false →
  let st' := after (fire KeepAliveExpired) st in
  (fire KeepAliveExpired st).1 = Return tt
  ∧ outBuffer (self st') = []
  ∧ inbound st' = [].
Proof.
  intros Hws Hrc st'. subst st'. unfold after, fire.
  rewrite disconnect_then_connect.
  destruct (disconnect_cleaned st r Hws) as (_ & _ & Hreset & _).
  destruct (Hreset Hrc) as (Hout & Hin & _).
  split.
  - now rewrite connect_attempt_returns.
  - now apply (connect_attempt_keeps_queues [] []).
Qed.

Lemma disconnect_in_cycle st :
  retryCall (self st) = true →
  outBuffer (self (after disconnect st)) = outBuffer (self st)
  ∧ inbound (after disconnect st) = inbound st.
Proof.
  intros Hrc. destruct (ws (self st)) as [r |] eqn:Hws.
  - destruct (disconnect_cleaned st r Hws) as (_ & _ & _ & Hkeep).
    destruct (Hkeep Hrc) as (Hout & Hin & _). now split.
  - unfold after. rewrite disconnect_without_transport by exact Hws. now split.
Qed.

(** X21.  When a retry timer fires on a socket in a reconnect cycle
    ([#retryCall] set), the replacement keeps both buffers: with or without
    an old transport, and whether the new connection can be constructed or
    not, the outbound queue and the inbound buffer are as they were, and
    the cycle mark is cleared at the end. *)
Theorem retry_cycle_keeps_queues st :
  retryCall (self st) = true →
  let st' := after (fire RetryFired) st in
  (fire RetryFired st).1 = Return tt
  ∧ outBuffer (self st') = outBuffer (self st)
  ∧ inbound st' = inbound st
  ∧ retryCall (self st') = false.
Proof.
  intros Hrc st'. subst st'. unfold after, fire, emit. exec.
  set (st1 := MkState (self st) _).
  assert (Hcycle : ∀ b : bool,
            (if b then connect else disconnect;; connect) st1
            = connect_attempt (after disconnect st1)).
  { intros []; [apply connect_after_disconnect | apply disconnect_then_connect]. }
  rewrite !bind_bind || idtac.
  match goal with
  | |- context [bind (if ?b then connect else _) _ st1] =>
      assert (Hrun : (if b then connect else disconnect;; connect) st1
                     = (Return tt, after connect_attempt (after disconnect st1)))
  end.
  { rewrite Hcycle. apply connect_attempt_returns. }
  rewrite (bind_returns _ _ _ _ _ Hrun). unfold update. cbn [fst snd self].
  destruct (disconnect_in_cycle st1 Hrc) as [Hout Hin].
  destruct (connect_attempt_keeps_queues (outBuffer (self st)) (inbound st)
              (after disconnect st1)) as [Hout' Hin'].
  { split; [exact Hout | exact Hin]. }
  split; [reflexivity |]. split; [exact Hout' |]. split; [exact Hin' | reflexivity].
Qed.

(** ** The ping timeout *)

(** X22.  When the timeout of a single ping expires: in strict mode, with
    [onAbort] unset, [abort] is emitted with the message
    ["Error: No response received on ping."]; in non-strict mode the socket
    disconnects and emits nothing. *)
Theorem ping_timeout_aborts_or_disconnects st :
  (PingConfig.strict (SocketConfig.ping (opts (self st))) = true →
   RetryConfig.onAbort (SocketConfig.retry (opts (self st))) = false →
   (fire PingTimedOut st).1 = Return tt
   ∧ emitted (world (after (fire PingTimedOut) st))
     = emitted (world st)
       ++ [(SocketEvent.abort,
            ErrorData {| message := "Error: No response received on ping." |})])
  ∧ (PingConfig.strict (SocketConfig.ping (opts (self st))) = false →
     fire PingTimedOut st = disconnect st
     ∧ emitted (world (after (fire PingTimedOut) st)) = emitted (world st)
     ∧ ws (self (after (fire PingTimedOut) st)) = None).
Proof.
  split.
  - intros Hstrict Hoff. unfold after, fire. exec. rewrite Hstrict.
    destruct (abort_signals st (Message "Error: No response received on ping.") Hoff)
      as (Hr & He & _).
    split; [exact Hr | exact He].
  - intros Hstrict.
    assert (E : fire PingTimedOut st = disconnect st).
    { unfold fire. exec. now rewrite Hstrict. }
    split; [exact E |]. unfold after. rewrite E.
    split; [| apply disconnect_drops_transport].
    assert (Hp : preserves (λ st', emitted (world st') = emitted (world st)) disconnect)
      by frame_with keep.
    now apply Hp.
Qed.

(** ** A retry timer that fired without a transport *)

Lemma reconnect_keeps_slot h S : preserves (slot_taken h S) reconnect.
Proof.
  intros st [Hp Hs]. unfold after.
  rewrite reconnect_blocked by (left; rewrite Hp; eauto). now split.
Qed.

#[local] Hint Resolve reconnect_keeps_slot : frame.

Lemma connect_attempt_keeps_slot h S : preserves (slot_taken h S) connect_attempt.
Proof. unfold connect_attempt. frame_with keep. Qed.

(** X23.  A retry timer that fires on a socket without a transport
    leaves its handle in [#timers.retry]: the timer is gone from the table
    and [connect] has run, but nothing has flushed the slot, so [reconnect]
    keeps doing nothing, with no retry scheduled, until a disconnect of an
    existing transport clears the timers. *)
Theorem fired_retry_blocks_reconnect st h t :
  ws (self st) = None →
  pending "retry" (self st) = Some h →
  scheduled (world st) !! h = Some t →
  kind t = Once →
  callback t = RetryFired →
  let st' := after (step (Expire h)) st in
  (step (Expire h) st).1 = Return tt
  ∧ scheduled (world st') = delete h (scheduled (world st))
  ∧ scheduled (world st') !! h = None
  ∧ pending "retry" (self st') = Some h
  ∧ reconnect st' = (Return tt, st').
Proof.
  intros Hws Hp Ht Hkind Hcb st'.
  assert (E : step (Expire h) st
              = (Return tt,
                 let st1 := after connect_attempt
                              (MkState (self st)
                                 (set_emitted (emitted (world st)
                                               ++ [(SocketEvent.reconnect, undefined)])
                                    (set_scheduled (delete h (scheduled (world st)))
                                       (world st)))) in
                 MkState (set_retryCall false (self st1)) (world st1))).
  { unfold step. exec. rewrite Ht, Hkind, Hcb. unfold clearTimeout. exec.
    unfold fire, emit. exec. cbn [self world]. rewrite Hws.
    rewrite bool_decide_eq_true_2 by reflexivity. cbn [orb].
    erewrite (bind_returns _ _ _ _ _ (connect_returns _)).
    unfold update. cbv zeta. f_equal.
    unfold after. rewrite connect_is_attempt by exact Hws. reflexivity. }
  assert (Hslot : slot_taken h (delete h (scheduled (world st)))
                    (after connect_attempt
                       (MkState (self st)
                          (set_emitted (emitted (world st)
                                        ++ [(SocketEvent.reconnect, undefined)])
                             (set_scheduled (delete h (scheduled (world st)))
                                (world st)))))).
  { apply connect_attempt_keeps_slot. split; [exact Hp | reflexivity]. }
  destruct Hslot as [Hp' Hs'].
  subst st'. unfold after at 1 2 3 4. rewrite E. cbv zeta. cbn [fst snd self world].
  split; [reflexivity |]. split; [exact Hs' |].
  split; [rewrite Hs'; apply lookup_delete_eq |].
  split; [exact Hp' |].
  unfold after. rewrite E. cbv zeta. cbn [snd].
  apply reconnect_blocked. left. cbn [self]. 
  change (pending "retry" (set_retryCall false ?s)) with (pending "retry" s).
  rewrite Hp'. eauto.
Qed.

(** ** Opening *)

Lemma drain_keeps_timers r items S n :
  preserves (λ st, scheduled (world st) = S ∧ now (world st) = n)
    (for_of items
       (λ x : Out, p ← this parser; frame ← call (p x); ws_send r frame;;
                   emit SocketEvent.send undefined)).
Proof. frame_with keep. Qed.

(** [syncOutBuffer] on an open transport with a parser that returns,
    whether it has something to release or not. *)
Lemma syncOutBuffer_runs st r b (enc : Out → OutData) :
  ws (self st) = Some r →
  ws_readyState r (world st) = Some WebSocket.OPEN →
  SocketConfig.buffer (opts (self st)) = Some b →
  Forall (λ i, parser (self st) i = Return (enc i)) (outBuffer (self st)) →
  BufferConfig.min b ≤ len (outBuffer (self st)) ∨ outBuffer (self st) = [] →
  let released := take (Z.to_nat (BufferConfig.max b)) (outBuffer (self st)) in
  ∃ st', syncOutBuffer st = (Return tt, st')
         ∧ self st' = set_outBuffer [] (self st)
         ∧ transmitted r st' = transmitted r st ++ map enc released
         ∧ emitted (world st')
           = emitted (world st) ++ replicate (length released) (SocketEvent.send, undefined)
         ∧ scheduled (world st') = scheduled (world st)
         ∧ now (world st') = now (world st).
Proof.
  intros Hws Hopen Hb Hparse Hthr released.
  destruct (outBuffer (self st)) as [| x q] eqn:Hq.
  - exists st. rewrite syncOutBuffer_idle by exact Hq. subst released. simpl.
    rewrite take_nil. simpl. rewrite !app_nil_r.
    split; [reflexivity |]. split; [| now repeat split].
    rewrite <- Hq. destruct st as [[] ?]. reflexivity.
  - destruct Hthr as [Hge | Hempty]; [| discriminate].
    unfold syncOutBuffer. exec. rewrite Hws. exec. rewrite Hb, Hq.
    assert ((negb (len (x :: q) =? 0) && (len (x :: q) >=? BufferConfig.min b)) = true)
      as ->.
    { apply andb_true_iff. split.
      - apply negb_true_iff, Z.eqb_neq. unfold len. simpl. lia.
      - rewrite Z.geb_leb. now apply Z.leb_le. }
    cbn [when]. exec.
    assert (Htake : take (Z.to_nat (BufferConfig.max b `min` len (x :: q))) (x :: q)
                    = released).
    { subst released. unfold len.
      destruct (Z_le_gt_dec (BufferConfig.max b) (Z.of_nat (length (x :: q))))
        as [Hle | Hgt].
      - now rewrite Z.min_l.
      - rewrite Z.min_r by lia. rewrite Nat2Z.id, firstn_all.
        symmetry. apply take_ge. lia. }
    rewrite Htake.
    destruct (drain_transmits r enc released st Hopen) as (st1 & E & Hself & Hsent & Hem).
    { subst released. now apply Forall_take. }
    pose proof (drain_keeps_timers r released (scheduled (world st)) (now (world st)) st
                  (conj eq_refl eq_refl)) as [Hs Hn].
    unfold after in Hs, Hn. rewrite E in Hs, Hn. cbn [snd] in Hs, Hn.
    rewrite (bind_returns _ _ _ _ _ E). unfold update.
    eexists. split; [reflexivity |]. cbn [self world]. rewrite Hself.
    split; [reflexivity |]. split; [exact Hsent |]. split; [exact Hem |].
    split; [exact Hs | exact Hn].
Qed.

(** X24.  When the transport opens, with a callback that returns and
    nothing buffered inbound: the socket is marked connected, [open] is
    emitted, the payloads queued before the connection was open go on the
    wire in order (up to [buffer.max], once the queue has reached
    [buffer.min]) and the queue is emptied, the uptime checkpoint is set to
    now and the reconnect-cycle mark is cleared.  A single-shot keep-alive
    timer of [timeout] ms is armed exactly when [timeout] is positive;
    otherwise no keep-alive timer is held. *)
Theorem open_connects_and_releases st callback r b (enc : Out → OutData) :
  callback tt = Return tt →
  ws (self st) = Some r →
  ws_readyState r (world st) = Some WebSocket.OPEN →
  SocketConfig.buffer (opts (self st)) = Some b →
  inbound st = [] →
  Forall (λ i, parser (self st) i = Return (enc i)) (outBuffer (self st)) →
  BufferConfig.min b ≤ len (outBuffer (self st)) ∨ outBuffer (self st) = [] →
  let st' := after (openHandler callback tt) st in
  let released := take (Z.to_nat (BufferConfig.max b)) (outBuffer (self st)) in
  (openHandler callback tt st).1 = Return tt
  ∧ connected (self st') = Some true
  ∧ emitted (world st')
    = emitted (world st)
      ++ (SocketEvent.open, undefined)
         :: replicate (length released) (SocketEvent.send, undefined)
  ∧ transmitted r st' = transmitted r st ++ map enc released
  ∧ outBuffer (self st') = []
  ∧ prevTimeStamp (self st') = now (world st)
  ∧ retryCall (self st') = false
  ∧ (if Qlt_bool 0 (SocketConfig.timeout (opts (self st)))
     then ∃ h, pending "keepAlive" (self st') = Some h
               ∧ scheduled (world st') !! h
                 = Some {| kind := Once; callback := KeepAliveExpired;
                           delay := SocketConfig.timeout (opts (self st)) |}
     else pending "keepAlive" (self st') = None).
Proof.
  intros Hcb Hws Hopen Hb Hin Hparse Hthr st' released. subst st'.
  unfold after, openHandler. exec. unfold startKATimer. rewrite !bind_bind.
  rewrite bind_clearTimer.
  match goal with |- context [cleared "keepAlive" ?s] => set (st0 := s) end.
  pose proof (pending_cleared "keepAlive" st0) as Hidle.
  destruct (cleared_frame "keepAlive" st0) as (T & S & E). rewrite E in *.
  subst st0. cbn [self world] in *. exec. cbn [self world].
  change (SocketConfig.timeout (opts (set_timers T (set_connected (Some true) (self st)))))
    with (SocketConfig.timeout (opts (self st))).
  assert (Hrest : ∀ st2,
            self st2 = set_timers (timers (self st2)) (set_connected (Some true) (self st)) →
            arrays (world st2) = arrays (world st) →
            sockets (world st2) = sockets (world st) →
            now (world st2) = now (world st) →
            ∃ st3,
              (emit SocketEvent.open undefined;; call (callback tt);; sync) st2
              = (Return tt, st3)
              ∧ connected (self st3) = Some true
              ∧ emitted (world st3)
                = emitted (world st2)
                  ++ (SocketEvent.open, undefined)
                     :: replicate (length released) (SocketEvent.send, undefined)
              ∧ transmitted r st3 = transmitted r st ++ map enc released
              ∧ outBuffer (self st3) = []
              ∧ prevTimeStamp (self st3) = now (world st)
              ∧ retryCall (self st3) = false
              ∧ timers (self st3) = timers (self st2)
              ∧ scheduled (world st3) = scheduled (world st2)).
  { intros st2 Hself Harr Hsock Hnow. unfold emit. exec. rewrite Hcb. cbn [call]. exec.
    unfold sync, Date_now. exec.
    set (st2' := MkState (self st2) _).
    assert (Hself' : self st2' = self st2) by reflexivity.
    assert (Hin' : inbound st2' = []).
    { unfold inbound in *. subst st2'. cbn [self world]. simpl arrays.
      rewrite Hself, Harr. exact Hin. }
    rewrite (bind_returns _ _ _ _ _ (syncInBuffer_idle st2' Hin')).
    cbv beta. exec.
    destruct (syncOutBuffer_runs st2' r b enc) as (st3 & E3 & Hs3 & Ht3 & He3 & Hsch3 & Hn3).
    - rewrite Hself', Hself. exact Hws.
    - unfold ws_readyState in *. subst st2'. cbn [world]. simpl sockets. now rewrite Hsock.
    - rewrite Hself', Hself. exact Hb.
    - rewrite Hself', Hself. exact Hparse.
    - rewrite Hself', Hself. exact Hthr.
    - rewrite (bind_returns _ _ _ _ _ E3). cbv beta. exec.
      eexists. split; [reflexivity |]. cbn [self world]. rewrite Hs3, Hself', Hself.
      cbn [connected set_prevTimeStamp set_retryCall set_outBuffer set_timers
           set_connected outBuffer prevTimeStamp retryCall timers].
      split; [reflexivity |]. split.
      { rewrite He3, Hself', Hself. unfold st2'. cbn [world self]. simpl emitted.
        cbn [outBuffer set_timers set_connected].
        rewrite <- app_assoc. reflexivity. }
      split.
      { transitivity (transmitted r st3); [reflexivity |].
        rewrite Ht3, Hself', Hself. unfold transmitted, st2'. cbn [world self].
        simpl sockets. rewrite Hsock. reflexivity. }
      split; [reflexivity |]. split; [rewrite Hn3; unfold st2'; exact Hnow |].
      split; [reflexivity |]. split; [reflexivity |]. rewrite Hsch3. reflexivity. }
  destruct (Qlt_bool 0 (SocketConfig.timeout (opts (self st)))) eqn:Hpos; cbn [when].
  - unfold setTimeout, schedule, set_timer. exec. unfold id. cbn [self world].
    match goal with |- context [bind (emit _ _) _ ?s] => set (st2 := s) end.
    destruct (Hrest st2) as (st3 & E3 & Hc & He & Ht & Ho & Hprev & Hrc & Htm & Hsch);
      try reflexivity.
    rewrite E3. cbn [fst snd].
    split; [reflexivity |]. split; [exact Hc |]. split; [exact He |].
    split; [exact Ht |]. split; [exact Ho |]. split; [exact Hprev |].
    split; [exact Hrc |].
    exists (fresh (issued (world st) ∪ dom S)). unfold pending. rewrite Htm, Hsch.
    subst st2. simpl.
    now rewrite !lookup_insert_eq.
  - exec.
    match goal with |- context [bind (emit _ _) _ ?s] => set (st2 := s) end.
    destruct (Hrest st2) as (st3 & E3 & Hc & He & Ht & Ho & Hprev & Hrc & Htm & Hsch);
      try reflexivity.
    rewrite E3. cbn [fst snd].
    split; [reflexivity |]. split; [exact Hc |]. split; [exact He |].
    split; [exact Ht |]. split; [exact Ho |]. split; [exact Hprev |].
    split; [exact Hrc |].
    unfold pending in *. rewrite Htm. subst st2. exact Hidle.
Qed.

(** ** Timer handles are the runtime's *)











End Properties.

(** ** The scenarios of the test suite, evaluated *)

Section Scenarios.

Import Demo.
#[local] Existing Instance Demo.platform.

(** C1.  The test 'should not abort on pause' expects no [abort] and no
    [error] event from [abort()] before connecting, while paused and after
    [disconnect].  The method has no such guard: on the paused socket the
    call emits [abort]; after the manual disconnect, with transport and
    controller gone, it emits [abort] again; over the whole test three
    events fire where none is expected. *)
Theorem abort_fires_when_paused_and_after_disconnect :
  let socket := paused_ DefaultOptions in
  let aborted_paused := run [Abort NoReason None] socket in
  let disconnected := run [Disconnect] aborted_paused in
  paused (self socket) = true
  ∧ emitted (world aborted_paused)
    = emitted (world socket) ++ [(SocketEvent.abort, ErrorData {| message := "" |})]
  ∧ ws (self disconnected) = None
  ∧ controller (self disconnected) = None
  ∧ emitted (world (run [Abort NoReason None] disconnected))
    = emitted (world disconnected) ++ [(SocketEvent.abort, ErrorData {| message := "" |})]
  ∧ filter (λ e, e.1 = SocketEvent.abort ∨ e.1 = SocketEvent.error)
      (emitted (world (run [Abort NoReason None; Connect; Opened 0%nat "" ""; Pause;
                            Abort NoReason None; Disconnect; Abort NoReason None]
                         (created DefaultOptions))))
    = replicate 3 (SocketEvent.abort, ErrorData {| message := "" |}).
Proof. vm_compute. repeat split. Qed.

(** C2.  The test 'sends an abort signal with payload to the server'
    calls [abort('Test', { id: 123 })] on an open socket and expects the
    frame [{"type":"abort","payload":{"id":123}}] on the wire.  The method
    ignores the payload: the transport has transmitted nothing after the
    call, is closing, and only the local [abort] event has fired. *)
Theorem abort_drops_payload :
  let socket := opened DefaultOptions in
  let st' := run [Abort (Message "Test") (Some payload)] socket in
  RetryConfig.onAbort (SocketConfig.retry (opts (self socket))) = false
  ∧ readyState socket = WebSocket.OPEN
  ∧ transmitted 0%nat st' = []
  ∧ readyState st' = WebSocket.CLOSING
  ∧ emitted (world st')
    = emitted (world socket) ++ [(SocketEvent.abort, ErrorData {| message := "Test" |})].
Proof. vm_compute. repeat split. Qed.

(** C3.  With [startDelay = 100], [delayFactor = 1] and [maxDelay = 1000]
    the first [reconnect] leaves a retry count of 1 and arms its timer with
    200 ms, where the formula of the specification (and [calcRetry] of the
    test suite) gives [delay(1) = 100]: the code multiplies by the retry
    count after the increment plus one.  With the cap of the specification's
    example, [maxDelay = 100], both give 100. *)
Theorem reconnect_delay_counts_one_too_many :
  let st' := run [Reconnect] (created (with_retry UncappedRetryOptions DefaultOptions)) in
  retries (self st') = 1
  ∧ map_to_list (scheduled (world st'))
    = [(1%positive, {| kind := Once; callback := RetryFired; delay := 200 |})]
  ∧ (spec_delay UncappedRetryOptions 1 == 100)%Q
  ∧ (retry_delay UncappedRetryOptions 1 == 200)%Q
  ∧ (retry_delay DefaultRetryOptions 1 == spec_delay DefaultRetryOptions 1)%Q
  ∧ (spec_delay DefaultRetryOptions 1 == 100)%Q.
Proof. vm_compute. repeat split. Qed.

(** C4 fails as the specification states it: after 4050 ms of connection a manual
    [disconnect] (no reconnect cycle in progress) leaves the accumulated
    uptime at 4050, not at zero, and the getter still returns 4050 ten
    seconds later, as the test 'does not increase uptime when paused or
    disconnected' expects. *)
Lemma uptime_survives_manual_disconnect :
  let st' := run [Disconnect; Elapse 10000] aged in
  retryCall (self aged) = false
  ∧ ws (self aged) = Some 0%nat
  ∧ upTime (self aged) = 4050
  ∧ upTime (self st') = 4050
  ∧ upTime (self st') ≠ 0
  ∧ (uptime st').1 = Return 4050.
Proof. vm_compute. repeat split. discriminate. Qed.

(** The amended C4 at the socket that was connected for 4050 ms. *)
Lemma disconnect_keeps_uptime_witness :
  is_Some (ws (self aged))
  ∧ upTime (self (after disconnect aged)) = 4050
  ∧ (uptime (after disconnect aged)).1 = Return 4050.
Proof.
  destruct (disconnect_keeps_uptime aged) as (Hd & _ & _ & Hget & _).
  assert (Hws : is_Some (ws (self aged))) by (vm_compute; eauto).
  split; [exact Hws |]. split.
  - rewrite Hd. reflexivity.
  - rewrite (Hget Hws). reflexivity.
Defined.

(** C5 fails as the specification states it: with a ping outstanding ([#pingStart]
    set, its timeout pending) a second [ping] emits [ping] again and sends
    the payload again; and on a connection the remote has closed, not
    active any more, [ping] still cancels the pending timeout. *)
Lemma ping_repeats_while_outstanding :
  pingStart (self pinged) = true
  ∧ pending "ping" (self pinged) = Some 2%positive
  ∧ emitted (world (after ping pinged))
    = emitted (world pinged) ++ [(SocketEvent.ping, undefined)]
  ∧ transmitted 0%nat (after ping pinged) = [PingContent; PingContent]
  ∧ active (self pinged_then_closed) = false
  ∧ is_Some (scheduled (world pinged_then_closed) !! 2%positive)
  ∧ scheduled (world (after ping pinged_then_closed)) !! 2%positive = None.
Proof. vm_compute. repeat split. eauto. Qed.

(** The amended C5 at a socket never connected and at one with a ping
    outstanding, whose timeout the second [ping] cancels. *)
Lemma ping_acts_when_active_witness :
  (active (self (created DefaultOptions)) = false
   ∧ emitted (world (after ping (created DefaultOptions)))
     = emitted (world (created DefaultOptions)))
  ∧ (active (self pinged) = true
     ∧ ws (self pinged) = Some 0%nat
     ∧ ws_readyState 0%nat (world pinged) = Some WebSocket.OPEN
     ∧ pingStart (self pinged) = true
     ∧ pending "ping" (self pinged) = Some 2%positive
     ∧ 2%positive ∈ issued (world pinged)
     ∧ is_Some (scheduled (world pinged) !! 2%positive)
     ∧ transmitted 0%nat (after ping pinged) = transmitted 0%nat pinged ++ [PingContent]
     ∧ scheduled (world (after ping pinged)) !! 2%positive = None).
Proof.
  split.
  - assert (Ha : active (self (created DefaultOptions)) = false) by reflexivity.
    split; [exact Ha |].
    destruct (ping_acts_when_active (created DefaultOptions)) as [Hidle _].
    apply (Hidle (or_introl Ha)).
  - assert (Ha : active (self pinged) = true) by reflexivity.
    assert (Hws : ws (self pinged) = Some 0%nat) by reflexivity.
    assert (Hopen : ws_readyState 0%nat (world pinged) = Some WebSocket.OPEN)
      by (vm_compute; reflexivity).
    assert (Hold : pending "ping" (self pinged) = Some 2%positive)
      by (vm_compute; reflexivity).
    assert (Hin : 2%positive ∈ issued (world pinged))
      by (apply (bool_decide_unpack _); vm_compute; exact I).
    split; [exact Ha |]. split; [exact Hws |]. split; [exact Hopen |].
    split; [reflexivity |]. split; [exact Hold |]. split; [exact Hin |].
    split; [vm_compute; eauto |].
    destruct (ping_acts_when_active pinged) as [_ Hlive].
    destruct (Hlive 0%nat Ha Hws Hopen) as (_ & _ & Hsent & _ & h & _ & _ & _ & _ & Hgone).
    split; [exact Hsent |]. apply (Hgone 2%positive Hold Hin).
Defined.





(** C8 at the capacity test: a hundred payloads sent while paused with
    [max = 10], then [resume]: exactly the first ten are transmitted. *)
Lemma outbound_queue_bounded_witness :
  let st := paused_ (with_buffer capacity DefaultOptions) in
  let st' := run (sends (items 100) ++ [Resume]) st in
  SocketConfig.buffer (opts (self st)) = Some capacity
  ∧ len (outBuffer (self (run (sends (items 100)) st))) ≤ 10
  ∧ transmitted 0%nat st' = map quoted (items 10)
  ∧ length (transmitted 0%nat st') = 10%nat.
Proof.
  set (st := paused_ (with_buffer capacity DefaultOptions)). cbv zeta.
  assert (Hb : SocketConfig.buffer (opts (self st)) = Some capacity) by reflexivity.
  destruct (outbound_queue_bounded st capacity Hb) as (Hbound & _ & Hdrain).
  assert (Hsent : transmitted 0%nat (run (sends (items 100) ++ [Resume]) st)
                  = map quoted (items 10)).
  { assert (Hitems : Forall (λ i, truthy i = true ∧ parser (self st) i = Return (quoted i))
                       (items 100)).
    { let l := eval vm_compute in (items 100) in
      replace (items 100) with l by (vm_compute; reflexivity).
      repeat (constructor; [split; reflexivity |]). constructor. }
    assert (Hopen : ws_readyState 0%nat (world st) = Some WebSocket.OPEN)
      by (vm_compute; reflexivity).
    assert (Hne : take (Z.to_nat (BufferConfig.max capacity)) (items 100) ≠ [])
      by (vm_compute; discriminate).
    assert (Hmin : BufferConfig.min capacity
                   ≤ len (take (Z.to_nat (BufferConfig.max capacity)) (items 100)))
      by (vm_compute; discriminate).
    apply (Hdrain 0%nat (items 100) quoted eq_refl eq_refl Hopen eq_refl eq_refl
             Hitems Hne Hmin). }
  split; [exact Hb |]. split; [apply Hbound; vm_compute; discriminate |].
  split; [exact Hsent |]. rewrite Hsent. reflexivity.
Defined.

(** C9 before [connect] and after [disconnect] ('defaults getters when not
    ready'). *)
Lemma observables_default_without_transport_witness :
  ws (self (created DefaultOptions)) = None
  ∧ ws (self (run [Disconnect] (opened DefaultOptions))) = None
  ∧ readyState (created DefaultOptions) = WebSocket.CLOSED
  ∧ url (opened DefaultOptions) = URL
  ∧ url (run [Disconnect] (opened DefaultOptions)) = "".
Proof.
  assert (H0 : ws (self (created DefaultOptions)) = None) by reflexivity.
  assert (H1 : ws (self (run [Disconnect] (opened DefaultOptions))) = None)
    by (vm_compute; reflexivity).
  split; [exact H0 |]. split; [exact H1 |].
  split; [apply (observables_default_without_transport _ H0) |].
  split; [vm_compute; reflexivity |].
  apply (observables_default_without_transport _ H1).
Defined.

(** C10 at a socket whose heartbeat is running. *)
Lemma pause_keeps_beating_witness :
  beating beat = true
  ∧ is_Some (pending "heartbeat" (self beat))
  ∧ beating (after pause beat) = true
  ∧ pending "heartbeat" (self (after pause beat)) = None
  ∧ beating (after stopBeat beat) = false.
Proof.
  assert (Hb : beating beat = true) by reflexivity.
  destruct (pause_keeps_beating beat Hb) as (Hp & _ & Hh & _ & Hs & _).
  split; [exact Hb |]. split; [vm_compute; eauto |].
  split; [exact Hp |]. split; [exact Hh | exact Hs].
Defined.


(** ** Further scenarios, evaluated *)

Import Cases.

(** X3 at a socket never connected and at an open one. *)
Lemma connect_disconnects_first_witness :
  ws (self (created DefaultOptions)) = None
  ∧ after disconnect (created DefaultOptions) = created DefaultOptions
  ∧ connect (opened DefaultOptions) = connect (after disconnect (opened DefaultOptions)).
Proof.
  assert (Hws : ws (self (created DefaultOptions)) = None) by reflexivity.
  split; [exact Hws |].
  split; [exact (proj2 (connect_disconnects_first (created DefaultOptions)) Hws) |].
  exact (proj1 (connect_disconnects_first (opened DefaultOptions))).
Defined.

(** X4 at [new Socket('invalid-url')] ('handles WebSocket creation
    errors'). *)
Lemma connect_reports_bad_address_witness :
  ws (self misaddressed) = None
  ∧ attempted (self misaddressed) = Throw invalid_url
  ∧ emitted (world (after connect misaddressed))
    = [(SocketEvent.preConnect, undefined);
       (SocketEvent.error,
        ErrorData {| message := "Error when trying to connect to server: "
                                 +:+ message invalid_url |})].
Proof.
  assert (Hws : ws (self misaddressed) = None) by reflexivity.
  assert (Hoff : RetryConfig.onAbort (SocketConfig.retry (opts (self misaddressed))) = false)
    by reflexivity.
  assert (Hatt : attempted (self misaddressed) = Throw invalid_url) by reflexivity.
  split; [exact Hws |]. split; [exact Hatt |].
  destruct (connect_reports_bad_address misaddressed invalid_url Hws Hoff Hatt)
    as (_ & He & _).
  rewrite He. reflexivity.
Defined.

(** X5 at a new socket on the test address. *)
Lemma connect_opens_transport_witness :
  ws (self (created DefaultOptions)) = None
  ∧ attempted (self (created DefaultOptions)) = Return URL
  ∧ ws (self (after connect (created DefaultOptions))) = Some 0%nat
  ∧ readyState (after connect (created DefaultOptions)) = WebSocket.CONNECTING.
Proof.
  assert (Hws : ws (self (created DefaultOptions)) = None) by reflexivity.
  assert (Hatt : attempted (self (created DefaultOptions)) = Return URL) by reflexivity.
  split; [exact Hws |]. split; [exact Hatt |].
  destruct (connect_opens_transport (created DefaultOptions) URL Hws Hatt)
    as (_ & _ & Hnew & Hthe & _).
  split; [rewrite Hnew; vm_compute; reflexivity |].
  unfold readyState. rewrite Hthe. reflexivity.
Defined.

(** X6 at the test 'errors on faulty data parser'. *)
Lemma send_reports_parser_failure_witness :
  let st := opened DefaultOptions in
  ws_readyState 0%nat (world st) = Some WebSocket.OPEN
  ∧ faulty "test" = Throw {| message := "test" |}
  ∧ emitted (world (after (send "test" faulty) st))
    = emitted (world st)
      ++ [(SocketEvent.error, ErrorData {| message := "Error sending message: test" |})]
  ∧ transmitted 0%nat (after (send "test" faulty) st) = [].
Proof.
  cbv zeta.
  assert (Hopen : ws_readyState 0%nat (world (opened DefaultOptions)) = Some WebSocket.OPEN)
    by (vm_compute; reflexivity).
  destruct (send_reports_parser_failure (opened DefaultOptions) 0%nat "test" faulty
              {| message := "test" |} eq_refl Hopen eq_refl eq_refl eq_refl eq_refl eq_refl)
    as (_ & He & _ & Ht).
  split; [exact Hopen |]. split; [reflexivity |]. split; [exact He |].
  rewrite Ht. vm_compute. reflexivity.
Defined.


(** X9 at the same connection, disconnected by the application before
    the close event arrives; and with a [connect] in between, after which
    the close of the old transport counts a retry. *)
Lemma no_retry_after_manual_disconnect_witness :
  let st1 := after disconnect retriable in
  let st2 := after connect st1 in
  ws (self retriable) = Some 0%nat
  ∧ retries (self (after (closeHandler noop remote_close) st1)) = 0
  ∧ pending "retry" (self (after (closeHandler noop remote_close) st1)) = None
  ∧ attempted (self st1) = Return URL
  ∧ eligible st2 = true
  ∧ retries (self st2) = 0
  ∧ retries (self (after (closeHandler noop remote_close) st2)) = 1
  ∧ is_Some (pending "retry" (self (after (closeHandler noop remote_close) st2))).
Proof.
  cbv zeta.
  assert (Hws : ws (self retriable) = Some 0%nat) by reflexivity.
  destruct (no_retry_after_manual_disconnect retriable 0%nat Hws) as [Hquiet Hcycle].
  destruct (Hquiet (after (closeHandler noop remote_close) (after disconnect retriable)))
    as (Hr & Hp & _).
  { left. eauto. }
  assert (Hatt : attempted (self (after disconnect retriable)) = Return URL)
    by (vm_compute; reflexivity).
  assert (Hel : eligible (after connect (after disconnect retriable)) = true)
    by (vm_compute; reflexivity).
  destruct (Hcycle URL noop remote_close Hatt eq_refl) as (_ & _ & _ & _ & Harm).
  destruct (Harm Hel) as (Hr' & h & Hp' & _).
  split; [exact Hws |]. split; [rewrite Hr; vm_compute; reflexivity |].
  split; [exact Hp |]. split; [exact Hatt |]. split; [exact Hel |].
  split; [vm_compute; reflexivity |].
  split; [rewrite Hr'; vm_compute; reflexivity |].
  rewrite Hp'. eauto.
Defined.

(** X10 at a paused connection receiving its first message. *)
Lemma paused_message_is_buffered_witness :
  let st := paused_ DefaultOptions in
  let c := msgCallback (self st) in
  paused (self st) = true
  ∧ emitted (world (after (messageHandler c hello) st)) = emitted (world st)
  ∧ captured c (after (messageHandler c hello) st) = [hello].
Proof.
  cbv zeta.
  assert (Hp : paused (self (paused_ DefaultOptions)) = true) by reflexivity.
  destruct (paused_message_is_buffered (paused_ DefaultOptions)
              (msgCallback (self (paused_ DefaultOptions))) hello Hp)
    as (_ & _ & He & _ & Hb).
  destruct (Hb {| BufferConfig.max := 32; BufferConfig.min := 0 |} eq_refl)
    as (Happ & _ & _).
  split; [exact Hp |]. split; [exact He |]. rewrite Happ; reflexivity.
Defined.

(** X11 at a connection paused for the second time: the first backlog was
    released, and the handler still holds the first array. *)
Lemma stale_handler_loses_messages_witness :
  let c := msgCallback (self paused_again) in
  paused (self paused_again) = true
  ∧ msg_inBuffer c ≠ inBuffer (self paused_again)
  ∧ inbound paused_again = []
  ∧ emitted (world (after resume (after (messageHandler c again) paused_again)))
    = emitted (world paused_again)
  ∧ captured c (after (messageHandler c again) paused_again) = [hello; again].
Proof.
  cbv zeta.
  assert (Hp : paused (self paused_again) = true) by reflexivity.
  assert (Hstale : msg_inBuffer (msgCallback (self paused_again))
                   ≠ inBuffer (self paused_again)) by (vm_compute; discriminate).
  assert (Hin : inbound paused_again = []) by (vm_compute; reflexivity).
  destruct (stale_handler_loses_messages paused_again (msgCallback (self paused_again))
              again Hp Hstale) as (_ & Hlost).
  destruct (Hlost Hin eq_refl) as (_ & He & _).
  split; [exact Hp |]. split; [exact Hstale |]. split; [exact Hin |].
  split; [exact He | vm_compute; reflexivity].
Defined.

(** X12 at a backlog of two messages with [buffer.min = 0]. *)
Lemma inbound_release_threshold_witness :
  inbound backlog = [hello; again]
  ∧ inbound (after syncInBuffer backlog) = []
  ∧ emitted (world (after syncInBuffer backlog))
    = emitted (world backlog)
      ++ [(SocketEvent.data, MessageData hello); (SocketEvent.data, MessageData again)].
Proof.
  assert (Hin : inbound backlog = [hello; again]) by (vm_compute; reflexivity).
  assert (Hf : Forall (λ ev, noop ev = Return tt) (inbound backlog)).
  { rewrite Hin. repeat constructor. }
  destruct (inbound_release_threshold backlog
              {| BufferConfig.max := 32; BufferConfig.min := 0 |} noop eq_refl eq_refl Hf)
    as (_ & Hflush).
  destruct Hflush as (_ & He & Hempty & _).
  { rewrite Hin. vm_compute. reflexivity. }
  { rewrite Hin. discriminate. }
  split; [exact Hin |]. split; [exact Hempty |]. rewrite He, Hin. reflexivity.
Defined.

(** X13 at a paused connection with one payload queued. *)
Lemma outbound_release_threshold_witness :
  outBuffer (self queued) = ["msg2"]
  ∧ ws_readyState 0%nat (world queued) = Some WebSocket.OPEN
  ∧ transmitted 0%nat (after syncOutBuffer queued)
    = transmitted 0%nat queued ++ [quoted "msg2"]
  ∧ outBuffer (self (after syncOutBuffer queued)) = [].
Proof.
  assert (Hopen : ws_readyState 0%nat (world queued) = Some WebSocket.OPEN)
    by (vm_compute; reflexivity).
  assert (Hparse : Forall (λ i, parser (self queued) i = Return (quoted i))
                     (outBuffer (self queued))).
  { change (outBuffer (self queued)) with ["msg2"]. repeat constructor. }
  destruct (outbound_release_threshold queued 0%nat
              {| BufferConfig.max := 32; BufferConfig.min := 0 |} quoted
              eq_refl Hopen eq_refl Hparse) as (_ & Hflush).
  destruct Hflush as (_ & Ht & _ & Hout).
  { vm_compute. discriminate. }
  { discriminate. }
  split; [reflexivity |]. split; [exact Hopen |]. split; [exact Ht | exact Hout].
Defined.

(** X14 at a connection with a ping outstanding: any message counts as
    the answer. *)
Lemma message_answers_ping_witness :
  let c := msgCallback (self pinged) in
  answers_ping pinged hello = true
  ∧ emitted (world (after (messageHandler c hello) pinged))
    = emitted (world pinged)
      ++ [(SocketEvent.data, MessageData hello); (SocketEvent.pong, undefined)]
  ∧ pending "ping" (self (after (messageHandler c hello) pinged)) = None.
Proof.
  cbv zeta.
  assert (Hans : answers_ping pinged hello = true) by reflexivity.
  assert (Hin : inbound pinged = []) by (vm_compute; reflexivity).
  destruct (message_answers_ping pinged (msgCallback (self pinged)) hello
              eq_refl Hin eq_refl) as (_ & He & _ & Hyes & _).
  destruct (Hyes Hans) as (Hp & _).
  split; [exact Hans |]. split; [rewrite He, Hans; reflexivity | exact Hp].
Defined.

(** X15 at an open connection. *)
Lemma startBeat_starts_witness :
  let st := opened DefaultOptions in
  ws_readyState 0%nat (world st) = Some WebSocket.OPEN
  ∧ beating (after startBeat st) = true
  ∧ transmitted 0%nat (after startBeat st) = [PingContent].
Proof.
  cbv zeta.
  assert (Hopen : ws_readyState 0%nat (world (opened DefaultOptions)) = Some WebSocket.OPEN)
    by (vm_compute; reflexivity).
  destruct (startBeat_starts (opened DefaultOptions) 0%nat eq_refl eq_refl Hopen eq_refl)
    as (_ & Hb & _ & _ & Ht & _).
  split; [exact Hopen |]. split; [exact Hb |]. rewrite Ht. vm_compute. reflexivity.
Defined.

(** X16 at an open connection: after a manual ping the heartbeat does not
    start. *)
Lemma heartbeat_waits_for_ping_witness :
  let st := opened DefaultOptions in
  ws_readyState 0%nat (world st) = Some WebSocket.OPEN
  ∧ startBeat (after ping st) = (Return tt, after ping st)
  ∧ startBeat (created DefaultOptions) = (Return tt, created DefaultOptions).
Proof.
  cbv zeta.
  assert (Hopen : ws_readyState 0%nat (world (opened DefaultOptions)) = Some WebSocket.OPEN)
    by (vm_compute; reflexivity).
  split; [exact Hopen |]. split.
  - exact (proj2 (heartbeat_waits_for_ping (opened DefaultOptions)) 0%nat
             eq_refl eq_refl Hopen).
  - exact (proj1 (heartbeat_waits_for_ping (created DefaultOptions))
             (or_intror (or_introl eq_refl))).
Defined.


(** X19 at an open connection: 100 ms before a pause of 5000 ms and 40 ms
    after it. *)
Lemma uptime_counts_from_checkpoint_witness :
  let st := opened DefaultOptions in
  upTime (self (run [Elapse 100; Pause; Elapse 5000; Resume; Elapse 40; GetUptime] st)) = 40
  ∧ upTime (self (run [Elapse 100; GetUptime; Pause; Elapse 5000; Resume; Elapse 40;
                       GetUptime] st)) = 140.
Proof.
  cbv zeta.
  assert (Hin : inbound (opened DefaultOptions) = []) by (vm_compute; reflexivity).
  destruct (uptime_counts_from_checkpoint (opened DefaultOptions) 100 5000 40
              eq_refl Hin eq_refl) as (H1 & H2).
  split; [rewrite H1 | rewrite H2]; vm_compute; reflexivity.
Defined.

(** X20 at a connection with a payload queued when the keep-alive timer
    expires. *)
Lemma keepalive_cycle_clears_queues_witness :
  outBuffer (self queued) = ["msg2"]
  ∧ retryCall (self queued) = false
  ∧ outBuffer (self (after (fire KeepAliveExpired) queued)) = [].
Proof.
  destruct (keepalive_cycle_clears_queues queued 0%nat eq_refl eq_refl) as (_ & Hout & _).
  split; [reflexivity |]. split; [reflexivity | exact Hout].
Defined.

(** X21 at the same queue when a retry timer expires. *)
Lemma retry_cycle_keeps_queues_witness :
  retryCall (self queued_retrying) = true
  ∧ outBuffer (self (after (fire RetryFired) queued_retrying))
    = outBuffer (self queued_retrying)
  ∧ retryCall (self (after (fire RetryFired) queued_retrying)) = false.
Proof.
  assert (Hrc : retryCall (self queued_retrying) = true) by (vm_compute; reflexivity).
  destruct (retry_cycle_keeps_queues queued_retrying Hrc) as (_ & Hout & _ & Hoff).
  split; [exact Hrc |]. split; [exact Hout | exact Hoff].
Defined.

(** X22 at a strict and at a lenient connection. *)
Lemma ping_timeout_aborts_or_disconnects_witness :
  emitted (world (after (fire PingTimedOut) (opened DefaultOptions)))
  = emitted (world (opened DefaultOptions))
    ++ [(SocketEvent.abort,
         ErrorData {| message := "Error: No response received on ping." |})]
  ∧ emitted (world (after (fire PingTimedOut) lenient)) = emitted (world lenient)
  ∧ ws (self (after (fire PingTimedOut) lenient)) = None.
Proof.
  destruct (proj1 (ping_timeout_aborts_or_disconnects (opened DefaultOptions))
              eq_refl eq_refl) as (_ & He).
  destruct (proj2 (ping_timeout_aborts_or_disconnects lenient) eq_refl)
    as (_ & He' & Hws).
  split; [exact He |]. split; [exact He' | exact Hws].
Defined.

(** X23 at a socket whose first retry timer expires before any transport
    exists. *)
Lemma fired_retry_blocks_reconnect_witness :
  let st' := after (step (Expire 1%positive)) retrying in
  ws (self retrying) = None
  ∧ pending "retry" (self retrying) = Some 1%positive
  ∧ scheduled (world st') !! 1%positive = None
  ∧ pending "retry" (self st') = Some 1%positive
  ∧ reconnect st' = (Return tt, st').
Proof.
  cbv zeta.
  assert (Hws : ws (self retrying) = None) by (vm_compute; reflexivity).
  assert (Hp : pending "retry" (self retrying) = Some 1%positive) by (vm_compute; reflexivity).
  assert (Ht : scheduled (world retrying) !! 1%positive
               = Some {| kind := Once; callback := RetryFired; delay := 100 |})
    by (vm_compute; reflexivity).
  destruct (fired_retry_blocks_reconnect retrying 1%positive _ Hws Hp Ht eq_refl eq_refl)
    as (_ & _ & Hgone & Hkept & Hnoop).
  split; [exact Hws |]. split; [exact Hp |]. split; [exact Hgone |].
  split; [exact Hkept | exact Hnoop].
Defined.

(** X24 at a socket that was given two payloads before it connected. *)
Lemma open_connects_and_releases_witness :
  let st' := after (openHandler (λ _, Return tt) tt) opening in
  outBuffer (self opening) = ["0"; "1"]
  ∧ ws_readyState 0%nat (world opening) = Some WebSocket.OPEN
  ∧ connected (self st') = Some true
  ∧ transmitted 0%nat st' = [quoted "0"; quoted "1"]
  ∧ emitted (world st')
    = emitted (world opening)
      ++ [(SocketEvent.open, undefined); (SocketEvent.send, undefined);
          (SocketEvent.send, undefined)].
Proof.
  cbv zeta.
  assert (Hout : outBuffer (self opening) = ["0"; "1"]) by (vm_compute; reflexivity).
  assert (Hopen : ws_readyState 0%nat (world opening) = Some WebSocket.OPEN)
    by (vm_compute; reflexivity).
  assert (Hin : inbound opening = []) by (vm_compute; reflexivity).
  assert (Hparse : Forall (λ i, parser (self opening) i = Return (quoted i))
                     (outBuffer (self opening))).
  { rewrite Hout. repeat constructor. }
  assert (Hmin : BufferConfig.min {| BufferConfig.max := 32; BufferConfig.min := 0 |}
                 ≤ len (outBuffer (self opening)) ∨ outBuffer (self opening) = []).
  { left. rewrite Hout. vm_compute. discriminate. }
  destruct (open_connects_and_releases opening (λ _, Return tt) 0%nat
              {| BufferConfig.max := 32; BufferConfig.min := 0 |} quoted
              eq_refl eq_refl Hopen eq_refl Hin Hparse Hmin)
    as (_ & Hc & He & Ht & _).
  split; [exact Hout |]. split; [exact Hopen |]. split; [exact Hc |].
  split; [etransitivity; [exact Ht |]; rewrite Hout; vm_compute; reflexivity |].
  etransitivity; [exact He |]. rewrite Hout. reflexivity.
Defined.

End Scenarios.
